(** * OCIPanel: the recurring retry scheduler and the Telegram control loop

    A shallow embedding of
      - internal/services/task_service.go      (module [TaskService]),
      - internal/services/telegram_service.go  (module [TelegramService]),
      - internal/controllers/telegram_controller.go (module [TelegramController]),
    together with the properties proved about them.

    Go strings are byte strings and are modelled by [string] (a list of
    8-bit characters); Go's [int] (on a 64-bit platform) and
    [time.Duration] are 64-bit two's complement integers, modelled by [Z]
    with the wrap-around written out ([wrap64]); Go maps and the database
    tables are [gmap]s. *)

From Stdlib Require Import ZArith Lia Ascii.
From stdpp Require Import gmap strings list fin_maps pretty sorting.

Local Open Scope Z_scope.

(* ===================================================================== *)
(** ** Machine integers *)
(* ===================================================================== *)

Module GoInt.

Definition min_int : Z := - 2 ^ 63.
Definition max_int : Z := 2 ^ 63 - 1.

(** Two's complement reduction of an integer to 64 bits: what Go computes
    for [+] and [*] on [int] (on a 64-bit platform), [int64] and
    [time.Duration]. *)
Definition wrap64 (z : Z) : Z := (z + 2 ^ 63) mod 2 ^ 64 - 2 ^ 63.

Definition in_range (z : Z) : Prop := min_int <= z <= max_int.

End GoInt.

(* ===================================================================== *)
(** ** A matcher for the regular expressions the code uses *)
(* ===================================================================== *)

(** Go's [regexp] package matches leftmost-first with greedy repetition.
    The one pattern of this code base, [Message:\s*([^.]+)], is a
    concatenation of a literal, a greedy starred character class and a
    capturing greedy plus of a character class; the matcher below covers
    exactly that fragment, with backtracking into the repetitions. *)
Module Regexp.

Inductive Re : Type :=
| Lit (l : string)                 (* a literal string *)
| StarCls (p : ascii -> bool)      (* [c*], greedy *)
| CapPlusCls (p : ascii -> bool).  (* [(c+)], greedy, the capture group *)

(** [strip_prefix l s] is the rest of [s] after its prefix [l]. *)
Fixpoint strip_prefix (l s : string) : option string :=
  match l, s with
  | EmptyString, _ => Some s
  | String a l', String b s' => if Ascii.eqb a b then strip_prefix l' s' else None
  | String _ _, EmptyString => None
  end.

(** Greedy star: take as many characters of the class as possible, and
    give them back one at a time while the continuation fails. *)
Fixpoint star (p : ascii -> bool) (k : string -> option string) (s : string)
  : option string :=
  match s with
  | String c s' =>
      if p c then
        match star p k s' with
        | Some r => Some r
        | None => k s
        end
      else k s
  | EmptyString => k s
  end.

(** Greedy capturing plus: at least one character of the class; [acc] is
    the text captured so far. *)
Fixpoint plus_cap (p : ascii -> bool) (k : string -> string -> option string)
         (acc s : string) : option string :=
  match s with
  | String c s' =>
      if p c then
        let acc' := (acc +:+ String c EmptyString)%string in
        match plus_cap p k acc' s' with
        | Some r => Some r
        | None => k acc' s'
        end
      else None
  | EmptyString => None
  end.

(** Match the sequence [rs] at the beginning of [s]; the result is the
    text of the capture group. *)
Fixpoint match_here (rs : list Re) (cap s : string) : option string :=
  match rs with
  | [] => Some cap
  | Lit l :: rs' =>
      match strip_prefix l s with
      | Some s' => match_here rs' cap s'
      | None => None
      end
  | StarCls p :: rs' => star p (match_here rs' cap) s
  | CapPlusCls p :: rs' => plus_cap p (fun c t => match_here rs' c t) EmptyString s
  end.

(** [FindStringSubmatch], restricted to the capture group: the match
    that starts leftmost. *)
Fixpoint FindStringSubmatch (rs : list Re) (s : string) : option string :=
  match match_here rs EmptyString s with
  | Some cap => Some cap
  | None =>
      match s with
      | String _ s' => FindStringSubmatch rs s'
      | EmptyString => None
      end
  end.

(** [\s] in Go (RE2) syntax is [[\t\n\f\r ]]. *)
Definition is_space (c : ascii) : bool :=
  (Ascii.eqb c "009" || Ascii.eqb c "010" || Ascii.eqb c "012"
   || Ascii.eqb c "013" || Ascii.eqb c " ")%char.

(** [[^.]] *)
Definition not_dot (c : ascii) : bool := negb (Ascii.eqb c "."%char).

End Regexp.

(* ===================================================================== *)
(** ** extractOCIErrorMessage (task_service.go) *)
(* ===================================================================== *)

Module ErrMsg.
Import Regexp.

Definition marker : string := "Message:".

(** [regexp.MustCompile(`Message:\s*([^.]+)`)] *)
Definition re : list Re := [Lit marker; StarCls is_space; CapPlusCls not_dot].

(** A Go [error] is [nil] ([None]) or carries its [Error()] text. *)
Definition error : Type := option string.

Definition extractOCIErrorMessage (err : error) : string :=
  match err with
  | None => EmptyString
  | Some errStr =>
      match FindStringSubmatch re errStr with
      | Some m => if decide (m <> EmptyString) then m else errStr
      | None => errStr
      end
  end.

End ErrMsg.

(* ===================================================================== *)
(** ** The task scheduler (task_service.go) *)
(* ===================================================================== *)

Module TaskService.
Import GoInt ErrMsg.

(** *** Records of the persistence layer *)

(** Modelled from the spec: the package [models], which declares
    [OciCreateTask], [OciUser], [SSHKey] and [TaskLog], is not among the
    sources.  A task has, as the spec lists them, an identifier, the
    references to its account and to its credential, a retry interval in
    seconds, a status, an execution counter, a success counter, the time
    of its last execution and its last message; these are the fields
    task_service.go reads and writes.  The counters and the interval are
    integers, taken without a bound here (the code only ever adds one to
    a counter; the conversion of the interval to a [time.Duration] is
    where the width of the machine integers shows, see [seconds]).  The
    provisioning parameters (region, shape, sizes, image) are only handed
    to the external [CreateInstance] call, whose outcome is an input of
    the model, and are left out. *)
Record OciCreateTask : Type := mkTask {
  ID : string;
  UserID : string;
  SSHKeyID : string;
  Interval : Z;                  (* seconds *)
  Status : string;
  ExecuteCount : Z;
  SuccessCount : Z;
  LastExecuteTime : option Z;    (* *time.Time *)
  LastMessage : string
}.

Record OciUser : Type := mkUser { Username : string }.
Record SSHKey : Type := mkKey { PublicKey : string }.

(** A row of the execution log; its [ID] is a fresh random UUID and is
    not modelled. *)
Record TaskLog : Type := mkLog {
  log_TaskID : string;
  log_Status : string;
  log_Message : string;
  log_ExecuteTime : Z
}.

#[global] Instance OciCreateTask_eq_dec : EqDecision OciCreateTask.
Proof. solve_decision. Defined.
#[global] Instance TaskLog_eq_dec : EqDecision TaskLog.
Proof. solve_decision. Defined.

(** *** Timers of the Go runtime

    [time.AfterFunc] allocates a timer; the service keeps a pointer to it
    in [taskTimers].  The runtime's timers are a list indexed by their
    handle, so that a timer the table no longer points to is still there
    and can still fire if nobody stopped it. *)

Inductive TimerState : Type := Pending | Expired | Stopped.

Record Timer : Type := mkTimer {
  tm_task : string;       (* the [task.ID] captured by the callback *)
  tm_interval : Z;        (* a [time.Duration], in nanoseconds *)
  tm_state : TimerState
}.

#[global] Instance TimerState_eq_dec : EqDecision TimerState.
Proof. solve_decision. Defined.
#[global] Instance Timer_eq_dec : EqDecision Timer.
Proof. solve_decision. Defined.

(** The database, the fields of [TaskService] and the runtime's timers. *)
Record World : Type := mkWorld {
  tasks : gmap string OciCreateTask;
  users : gmap string OciUser;
  ssh_keys : gmap string SSHKey;
  task_logs : list TaskLog;
  running : bool;
  taskTimers : gmap string nat;
  timers : list Timer
}.

Definition set_tasks (f : gmap string OciCreateTask -> gmap string OciCreateTask)
           (w : World) : World :=
  mkWorld (f (tasks w)) (users w) (ssh_keys w) (task_logs w)
          (running w) (taskTimers w) (timers w).
Definition set_task_logs (f : list TaskLog -> list TaskLog) (w : World) : World :=
  mkWorld (tasks w) (users w) (ssh_keys w) (f (task_logs w))
          (running w) (taskTimers w) (timers w).
Definition set_running (b : bool) (w : World) : World :=
  mkWorld (tasks w) (users w) (ssh_keys w) (task_logs w)
          b (taskTimers w) (timers w).
Definition set_taskTimers (f : gmap string nat -> gmap string nat) (w : World) : World :=
  mkWorld (tasks w) (users w) (ssh_keys w) (task_logs w)
          (running w) (f (taskTimers w)) (timers w).
Definition set_timers (f : list Timer -> list Timer) (w : World) : World :=
  mkWorld (tasks w) (users w) (ssh_keys w) (task_logs w)
          (running w) (taskTimers w) (f (timers w)).

(** [NewTaskService]: no timer, not running. *)
Definition NewTaskService (tk : gmap string OciCreateTask) (us : gmap string OciUser)
           (ks : gmap string SSHKey) (lg : list TaskLog) : World :=
  mkWorld tk us ks lg false ∅ [].

(** *** time *)
Definition Second : Z := 1000000000.

(** [time.Duration(n) * time.Second]: conversion to [int64], then a
    64-bit multiplication. *)
Definition seconds (n : Z) : Z := wrap64 (wrap64 n * Second).

(** [timer.Stop()]: a pending timer will not fire any more; a timer that
    has fired or was stopped is left as it is. *)
Definition stop_timer (tm : Timer) : Timer :=
  match tm_state tm with
  | Pending => mkTimer (tm_task tm) (tm_interval tm) Stopped
  | _ => tm
  end.

Definition timer_Stop (h : nat) (heap : list Timer) : list Timer :=
  alter stop_timer h heap.

(** The runtime lets a pending timer expire; its callback runs next. *)
Definition expire_timer (tm : Timer) : Timer :=
  mkTimer (tm_task tm) (tm_interval tm) Expired.

(** *** scheduleTask *)
Definition clamp_interval (task : OciCreateTask) : Z :=
  let interval := seconds (Interval task) in
  if interval <? 10 * Second then 10 * Second else interval.

(** The timers once the one registered for the task, if any, is
    stopped. *)
Definition stopped_heap (task : OciCreateTask) (w : World) : list Timer :=
  match taskTimers w !! ID task with
  | Some existingTimer => timer_Stop existingTimer (timers w)
  | None => timers w
  end.

Definition scheduleTask (task : OciCreateTask) (w : World) : World :=
  let heap := stopped_heap task w in
  let interval := clamp_interval task in
  let timer := length heap in    (* the fresh handle of [time.AfterFunc] *)
  set_taskTimers (fun tt => <[ID task := timer]> tt)
    (set_timers (fun _ => heap ++ [mkTimer (ID task) interval Pending]) w).

(** *** removeTaskTimer *)
Definition removeTaskTimer (taskID : string) (w : World) : World :=
  match taskTimers w !! taskID with
  | Some timer =>
      set_taskTimers (fun tt => delete taskID tt)
        (set_timers (timer_Stop timer) w)
  | None => w
  end.

(** *** logTaskExecution *)
Definition logTaskExecution (taskID status message : string) (now : Z) (w : World)
  : World :=
  set_task_logs (fun l => l ++ [mkLog taskID status message now]) w.

(** [db.Save(&task)]: the row with the task's primary key is replaced. *)
Definition db_Save (task : OciCreateTask) (w : World) : World :=
  set_tasks (fun tk => <[ID task := task]> tk) w.

(** What a firing meets outside the process: the clock and the outcome
    of [ociService.CreateInstance]. *)
Record Env : Type := mkEnv { now : Z; CreateInstance : error }.

(** The text of gorm's [ErrRecordNotFound], the error of a [First] that
    finds no row. *)
Definition ErrRecordNotFound : string := "record not found".

Definition with_execution (task : OciCreateTask) (t : Z) : OciCreateTask :=
  mkTask (ID task) (UserID task) (SSHKeyID task) (Interval task) (Status task)
         (ExecuteCount task + 1) (SuccessCount task) (Some t) (LastMessage task).
Definition with_message (task : OciCreateTask) (m : string) : OciCreateTask :=
  mkTask (ID task) (UserID task) (SSHKeyID task) (Interval task) (Status task)
         (ExecuteCount task) (SuccessCount task) (LastExecuteTime task) m.
Definition with_status (task : OciCreateTask) (st : string) : OciCreateTask :=
  mkTask (ID task) (UserID task) (SSHKeyID task) (Interval task) st
         (ExecuteCount task) (SuccessCount task) (LastExecuteTime task)
         (LastMessage task).
Definition with_success (task : OciCreateTask) : OciCreateTask :=
  mkTask (ID task) (UserID task) (SSHKeyID task) (Interval task) (Status task)
         (ExecuteCount task) (SuccessCount task + 1) (LastExecuteTime task)
         (LastMessage task).

(** *** executeTask: the callback of a task's timer *)
Definition executeTask (taskID : string) (env : Env) (w : World) : World :=
  match tasks w !! taskID with
  | None => w
  | Some task =>
      if decide (Status task <> "running") then w
      else
        match users w !! UserID task with
        | None =>
            logTaskExecution taskID "error"
              ("配置不存在: " +:+ ErrRecordNotFound) (now env) w
        | Some user =>
            match ssh_keys w !! SSHKeyID task with
            | None =>
                logTaskExecution taskID "error"
                  ("SSH密钥不存在: " +:+ ErrRecordNotFound) (now env) w
            | Some sshKey =>
                let err := CreateInstance env in
                let task := with_execution task (now env) in
                let '(task, w) :=
                  match err with
                  | Some _ =>
                      let errMsg := extractOCIErrorMessage err in
                      (with_message task errMsg,
                       logTaskExecution taskID "error" errMsg (now env) w)
                  | None =>
                      (with_status (with_message (with_success task) "创建成功")
                                   "completed",
                       logTaskExecution taskID "success" "实例创建成功" (now env) w)
                  end in
                let w := db_Save task w in
                if decide (Status task = "running") then scheduleTask task w
                else removeTaskTimer taskID w
            end
        end
  end.

(** A pending timer expires and its callback runs. *)
Definition fire (h : nat) (env : Env) (w : World) : World :=
  match timers w !! h with
  | Some tm =>
      match tm_state tm with
      | Pending =>
          executeTask (tm_task tm) env (set_timers (alter expire_timer h) w)
      | _ => w
      end
  | None => w
  end.

(** *** Start, Stop *)

(** [loadAndStartTasks]: every stored task whose status is [running] is
    scheduled.  (In the source it runs in a goroutine of its own; here it
    runs to its end within [Start].) *)
Definition running_tasks (w : World) : list OciCreateTask :=
  filter (fun t => Status t = "running") (map_to_list (tasks w)).*2.

Definition loadAndStartTasks (w : World) : World :=
  foldl (fun w task => scheduleTask task w) w (running_tasks w).

Definition Start (w : World) : World :=
  if running w then w
  else loadAndStartTasks (set_running true w).

(** The part of [Stop] under [timerMutex]: every timer of the table is
    stopped and the table is replaced by an empty one. *)
Definition stop_timers (w : World) : World :=
  let handles := (map_to_list (taskTimers w)).*2 in
  set_taskTimers (fun _ => ∅)
    (set_timers (fun heap => foldr timer_Stop heap handles) w).

Definition Stop (w : World) : World :=
  if negb (running w) then w
  else stop_timers (set_running false w).

(** *** Task management *)

(** The error of a [Create] whose primary key is taken. *)
Definition ErrDuplicatedKey : string := "UNIQUE constraint failed".

Definition AddTask (task : OciCreateTask) (w : World) : error * World :=
  match tasks w !! ID task with
  | Some _ => (Some ErrDuplicatedKey, w)
  | None =>
      let w := set_tasks (fun tk => <[ID task := task]> tk) w in
      (None, if decide (Status task = "running") then scheduleTask task w else w)
  end.

Definition StartTask (taskID : string) (w : World) : error * World :=
  match tasks w !! taskID with
  | None => (Some ErrRecordNotFound, w)
  | Some task =>
      let task := with_status task "running" in
      (None, scheduleTask task (db_Save task w))
  end.

Definition StopTask (taskID : string) (w : World) : error * World :=
  let w := set_tasks (fun tk => alter (fun t => with_status t "stopped") taskID tk) w in
  (None, removeTaskTimer taskID w).

Definition delete_logs (taskID : string) (w : World) : World :=
  set_task_logs (fun l => filter (fun e => log_TaskID e <> taskID) l) w.

Definition DeleteTask (taskID : string) (w : World) : error * World :=
  let w := removeTaskTimer taskID w in
  let w := delete_logs taskID w in
  (None, set_tasks (fun tk => delete taskID tk) w).

Definition ClearTaskLogs (taskID : string) (w : World) : error * World :=
  (None, delete_logs taskID w).

(** *** ExecuteTaskOnce: one attempt, outside the schedule *)
Definition ExecuteTaskOnce (taskID : string) (env : Env) (w : World) : error * World :=
  match tasks w !! taskID with
  | None => (Some ("任务不存在: " +:+ ErrRecordNotFound), w)
  | Some task =>
      match users w !! UserID task with
      | None =>
          (Some ("配置不存在: " +:+ ErrRecordNotFound),
           logTaskExecution taskID "error"
             ("配置不存在: " +:+ ErrRecordNotFound) (now env) w)
      | Some user =>
          match ssh_keys w !! SSHKeyID task with
          | None =>
              (Some ("SSH密钥不存在: " +:+ ErrRecordNotFound),
               logTaskExecution taskID "error"
                 ("SSH密钥不存在: " +:+ ErrRecordNotFound) (now env) w)
          | Some sshKey =>
              let err := CreateInstance env in
              let task := with_execution task (now env) in
              match err with
              | Some _ =>
                  let errMsg := extractOCIErrorMessage err in
                  let task := with_status (with_message task errMsg) "error" in
                  let w := logTaskExecution taskID "error" errMsg (now env) w in
                  (Some errMsg, db_Save task w)
              | None =>
                  let task :=
                    with_message (with_status (with_success task) "completed")
                                 "创建成功" in
                  let w := logTaskExecution taskID "success" "创建成功" (now env) w in
                  (None, db_Save task w)
              end
          end
      end
  end.

(** *** The runs of the service

    One step is one call of the service's interface or the firing of a
    pending timer; each runs to its end before the next begins. *)
Inductive step : World -> World -> Prop :=
| step_Start w : step w (Start w)
| step_Stop w : step w (Stop w)
| step_AddTask w task : step w (AddTask task w).2
| step_StartTask w taskID : step w (StartTask taskID w).2
| step_StopTask w taskID : step w (StopTask taskID w).2
| step_DeleteTask w taskID : step w (DeleteTask taskID w).2
| step_ClearTaskLogs w taskID : step w (ClearTaskLogs taskID w).2
| step_ExecuteTaskOnce w taskID env : step w (ExecuteTaskOnce taskID env w).2
| step_fire w h env tm :
    timers w !! h = Some tm -> tm_state tm = Pending -> step w (fire h env w).

Inductive reachable : World -> Prop :=
| reach_init tk us ks lg : reachable (NewTaskService tk us ks lg)
| reach_step w w' : reachable w -> step w w' -> reachable w'.

(** The same runs at the grain of the locks.  The timer table and the
    timers change only inside [scheduleTask], [removeTaskTimer] and the
    locked part of [Stop], each under [timerMutex], and when the runtime
    lets a timer expire; everything else the service does (a write to the
    database, the [running] flag) leaves them as they are.  Calls and
    firings that run side by side interleave these steps. *)
Inductive atomic : World -> World -> Prop :=
| atomic_other w w' :
    taskTimers w' = taskTimers w -> timers w' = timers w -> atomic w w'
| atomic_scheduleTask w task : atomic w (scheduleTask task w)
| atomic_removeTaskTimer w taskID : atomic w (removeTaskTimer taskID w)
| atomic_stop_timers w : atomic w (stop_timers w)
| atomic_expire w h tm :
    timers w !! h = Some tm -> tm_state tm = Pending ->
    atomic w (set_timers (alter expire_timer h) w).

(** The timers of a task that are still to fire. *)
Definition pending_for (taskID : string) (w : World) : list nat :=
  (filter (fun p : nat * Timer => tm_task p.2 = taskID /\ tm_state p.2 = Pending)
          (imap pair (timers w))).*1.

(** Every timer still to fire is the one the table holds for its task. *)
Definition timers_inv (w : World) : Prop :=
  forall h tm, timers w !! h = Some tm -> tm_state tm = Pending ->
               taskTimers w !! tm_task tm = Some h.

(** The rows of the task table are stored under their own [ID]. *)
Definition tasks_wf (w : World) : Prop :=
  forall k t, tasks w !! k = Some t -> ID t = k.

End TaskService.

(* ===================================================================== *)
(** ** The Telegram bot (telegram_service.go) *)
(* ===================================================================== *)

Module TelegramService.
Import GoInt.

Definition SettingKeyTgBotToken : string := "tg_bot_token".
Definition SettingKeyTgChatID : string := "tg_chat_id".
Definition SettingKeyTgEnabled : string := "tg_enabled".

(** The fields of [TelegramService] and the [SysSetting] table, keyed by
    its [Key] column. *)
Record Service : Type := mkService {
  botToken : string;
  chatID : string;
  enabled : bool;
  running : bool;
  settings : gmap string string
}.

(** *** Updates *)
Record Message : Type := mkMessage {
  MessageID : Z;
  From_ID : Z;
  Chat_ID : Z;
  Text : string
}.

Record CallbackQuery : Type := mkCallback {
  cb_ID : string;
  cb_From_ID : Z;
  cb_MessageID : Z;
  cb_Chat_ID : Z;
  Data : string
}.

Record TelegramUpdate : Type := mkUpdate {
  UpdateID : Z;
  update_Message : option Message;
  update_CallbackQuery : option CallbackQuery
}.

Record InlineKeyboardButton : Type := mkButton {
  btn_Text : string;
  CallbackData : string;
  URL : string
}.

Definition InlineKeyboardMarkup : Type := list (list InlineKeyboardButton).

(** The six reports the buttons ask for. *)
Inductive Snapshot : Type :=
| checkAlive | getTaskDetails | getInstanceStats
| getConfigList | getVersionInfo | getTrafficStats.

(** What the bot does that can be seen from outside: the requests to the
    Bot API, and the calls of the report functions. *)
Inductive Call : Type :=
| getUpdates (offset : Z)
| sendMessage (chat text : string) (replyMarkup : option InlineKeyboardMarkup)
| editMessageText (chat : string) (messageID : Z) (text : string)
                  (replyMarkup : option InlineKeyboardMarkup)
| deleteMessage (chat : string) (messageID : Z)
| answerCallbackQuery (callbackQueryID : string)
| render (f : Snapshot).

#[global] Instance InlineKeyboardButton_eq_dec : EqDecision InlineKeyboardButton.
Proof. solve_decision. Defined.
#[global] Instance Snapshot_eq_dec : EqDecision Snapshot.
Proof. solve_decision. Defined.
#[global] Instance Call_eq_dec : EqDecision Call.
Proof. solve_decision. Defined.

Definition is_render (c : Call) : bool :=
  match c with render _ => true | _ => false end.

(** [fmt.Sprintf("%d", n)] *)
Definition fmt_d (n : Z) : string := pretty n.

Definition getMainKeyboard : InlineKeyboardMarkup :=
  [ [ mkButton "🔍 一键测活" "check_alive" "";
      mkButton "📋 任务详情" "task_details" "" ];
    [ mkButton "🖥️ 实例统计" "instance_stats" "";
      mkButton "📂 配置列表" "config_list" "" ];
    [ mkButton "ℹ️ 版本信息" "version_info" "";
      mkButton "📊 流量统计" "traffic_stats" "" ];
    [ mkButton "⭐ 开源地址（欢迎Star）" "" "https://github.com/adiecho/oci-panel" ];
    [ mkButton "❌ 关闭窗口" "cancel" "" ] ].

Definition rejection : string :=
  "❌ 无权限操作此机器人🤖" +:+ String "010" "项目地址: https://github.com/adiecho/oci-panel".

Definition handleStartCommand (chat : Z) : list Call :=
  [sendMessage (fmt_d chat) "请选择需要执行的操作：" (Some getMainKeyboard)].

Section Handlers.
(** The text each report returns when it is called. *)
Variable report : Snapshot -> string.

Definition show (chat : string) (messageID : Z) (f : Snapshot) : list Call :=
  [render f; editMessageText chat messageID (report f) (Some getMainKeyboard)].

Definition handleCallback (callback : CallbackQuery) : list Call :=
  let chat := fmt_d (cb_Chat_ID callback) in
  let messageID := cb_MessageID callback in
  if decide (Data callback = "check_alive") then show chat messageID checkAlive
  else if decide (Data callback = "task_details") then show chat messageID getTaskDetails
  else if decide (Data callback = "instance_stats") then show chat messageID getInstanceStats
  else if decide (Data callback = "config_list") then show chat messageID getConfigList
  else if decide (Data callback = "version_info") then show chat messageID getVersionInfo
  else if decide (Data callback = "traffic_stats") then show chat messageID getTrafficStats
  else if decide (Data callback = "cancel") then [deleteMessage chat messageID]
  else [].

(** [handleUpdate]; the second component says whether the function
    went on to the button part ([false] after the early [return]). *)
Definition handle_message (s : Service) (m : option Message) : list Call * bool :=
  match m with
  | Some msg =>
      if decide (fmt_d (Chat_ID msg) <> chatID s) then
        ([sendMessage (fmt_d (Chat_ID msg)) rejection None], false)
      else if decide (Text msg = "/start") then
        (handleStartCommand (Chat_ID msg), true)
      else ([], true)
  | None => ([], true)
  end.

Definition handle_callback_query (s : Service) (c : option CallbackQuery) : list Call :=
  match c with
  | Some cb =>
      if decide (fmt_d (cb_From_ID cb) <> chatID s) then
        [answerCallbackQuery (cb_ID cb)]
      else answerCallbackQuery (cb_ID cb) :: handleCallback cb
  | None => []
  end.

Definition handleUpdate (s : Service) (update : TelegramUpdate) : list Call :=
  let '(calls, continue) := handle_message s (update_Message update) in
  if continue then calls ++ handle_callback_query s (update_CallbackQuery update)
  else calls.

(** The body of the [for _, update := range updates] loop. *)
Definition process_updates (s : Service) (offset : Z) (updates : list TelegramUpdate)
  : Z * list Call :=
  foldl (fun '(offset, calls) update =>
           (wrap64 (UpdateID update + 1), calls ++ handleUpdate s update))
        (offset, []) updates.

(** One turn of the loop of [pollUpdates]: [resp] is what [getUpdates]
    returns, [None] for an error. *)
Definition poll_cycle (s : Service) (offset : Z) (resp : option (list TelegramUpdate))
  : Z * list Call :=
  match resp with
  | None => (offset, [getUpdates offset])
  | Some updates =>
      let '(offset', calls) := process_updates s offset updates in
      (offset', getUpdates offset :: calls)
  end.

(** [pollUpdates], for the answers the transport gives until the stop
    channel is closed; [offset] starts at 0. *)
Fixpoint poll_loop (s : Service) (offset : Z)
         (resps : list (option (list TelegramUpdate))) : Z * list Call :=
  match resps with
  | [] => (offset, [])
  | resp :: resps' =>
      let '(offset', calls) := poll_cycle s offset resp in
      let '(offset'', calls') := poll_loop s offset' resps' in
      (offset'', calls ++ calls')
  end.

Definition pollUpdates (s : Service) (resps : list (option (list TelegramUpdate)))
  : Z * list Call :=
  poll_loop s 0 resps.

End Handlers.

(** *** Configuration and life cycle *)
Definition GetConfig (s : Service) : string * string * bool :=
  (botToken s, chatID s, enabled s).

Definition StartBot (s : Service) : Service :=
  if running s then s
  else mkService (botToken s) (chatID s) (enabled s) true (settings s).

Definition StopBot (s : Service) : Service :=
  if negb (running s) then s
  else mkService (botToken s) (chatID s) (enabled s) false (settings s).

Definition IsRunning (s : Service) : bool := running s.

Definition fmt_t (b : bool) : string := if b then "true" else "false".

(** [UpdateConfig] of the service: the three settings are written to
    the table, then to the fields, and the bot is started or stopped. *)
Definition UpdateConfig (token chat : string) (en : bool) (s : Service) : Service :=
  let st := <[SettingKeyTgEnabled := fmt_t en]>
              (<[SettingKeyTgChatID := chat]>
                 (<[SettingKeyTgBotToken := token]> (settings s))) in
  let s := mkService token chat en (running s) st in
  if en && negb (String.eqb token "") && negb (String.eqb chat "")
  then StartBot s else StopBot s.

End TelegramService.

(* ===================================================================== *)
(** ** The HTTP handlers of the bot's configuration
       (telegram_controller.go) *)
(* ===================================================================== *)

Module TelegramController.
Import TelegramService.

Record TelegramConfigResponse : Type := mkConfigResponse {
  resp_BotToken : string;
  resp_ChatID : string;
  resp_Enabled : bool;
  resp_Running : bool
}.

Record UpdateTelegramConfigRequest : Type := mkUpdateRequest {
  req_BotToken : string;
  req_ChatID : string;
  req_Enabled : bool
}.

(** [s[i:]] and [s[:i]] on byte strings, for [i] within the string. *)
Definition slice_from (i : nat) (s : string) : string :=
  String.substring i (String.length s - i) s.
Definition slice_to (i : nat) (s : string) : string :=
  String.substring 0 i s.

Definition mask (token : string) : string :=
  if (10 <? String.length token)%nat then
    slice_to 6 token +:+ "****" +:+ slice_from (String.length token - 4) token
  else if negb (String.eqb token "") then "****"
  else "".

Definition GetConfig (s : Service) : TelegramConfigResponse :=
  let '(token, chat, en) := TelegramService.GetConfig s in
  mkConfigResponse (mask token) chat en (IsRunning s).

(** The token [UpdateConfig] hands to the service. *)
Definition effective_token (currentToken token : string) : string :=
  if String.eqb token ""
     || ((4 <? String.length token)%nat
         && String.eqb (slice_from (String.length token - 4) token) "****")
  then currentToken else token.

Definition UpdateConfig (req : UpdateTelegramConfigRequest) (s : Service) : Service :=
  let '(currentToken, _, _) := TelegramService.GetConfig s in
  let token := effective_token currentToken (req_BotToken req) in
  TelegramService.UpdateConfig token (req_ChatID req) (req_Enabled req) s.

End TelegramController.

(* ===================================================================== *)
(** ** Vocabulary of the statements *)
(* ===================================================================== *)

Module Spec.
Import Regexp ErrMsg.

(** Every character of [s] is in the class [p]. *)
Fixpoint all_chars (p : ascii -> bool) (s : string) : bool :=
  match s with
  | EmptyString => true
  | String c s' => p c && all_chars p s'
  end.

(** [s] begins with a period. *)
Definition starts_with_dot (s : string) : Prop :=
  exists s', s = String "."%char s'.

(** The text stops, or goes on with a period. *)
Definition stops_at_period (rest : string) : Prop :=
  rest = EmptyString \/ starts_with_dot rest.

(** The marker occurs in [s]. *)
Definition has_marker (s : string) : Prop :=
  exists a b, s = a +:+ marker +:+ b.

(** [frag] is a fragment after a marker: the marker, white space, then
    [frag], which is not empty, holds no period, does not begin with
    white space and runs up to a period or the end of the text. *)
Definition fragment_after_marker (ws frag rest : string) : Prop :=
  all_chars is_space ws = true
  /\ (exists c frag', frag = String c frag' /\ is_space c = false)
  /\ all_chars not_dot frag = true
  /\ stops_at_period rest.

(** Every marker that begins within the first [n] characters of [s] is
    followed at once by a period, so that nothing is captured there. *)
Definition no_capture_before (n : nat) (s : string) : Prop :=
  forall a b, s = a +:+ marker +:+ b -> (String.length a < n)%nat ->
              starts_with_dot b.

(** The continuation of the capture group of [re], the last item of the
    pattern: the match is complete. *)
Definition accept : string -> string -> option string := fun c _ => Some c.

End Spec.

Module TaskSpec.
Import ErrMsg TaskService.

(** The timer the table holds for the task fires. *)
Definition fire_task (taskID : string) (env : Env) (w : World) : World :=
  match taskTimers w !! taskID with
  | Some h => fire h env w
  | None => w
  end.

(** The task's timer fires once for each environment of [envs]. *)
Definition fire_all (taskID : string) (envs : list Env) (w : World) : World :=
  foldl (fun w env => fire_task taskID env w) w envs.

(** Any number of pending timers fire, one after the other. *)
Inductive fires : World -> World -> Prop :=
| fires_refl w : fires w w
| fires_step w w' h env tm :
    fires w w' -> timers w' !! h = Some tm -> tm_state tm = Pending ->
    fires w (fire h env w').

(** The account and the SSH key the task refers to are in the database. *)
Definition resolves (task : OciCreateTask) (w : World) : Prop :=
  is_Some (users w !! UserID task) /\ is_Some (ssh_keys w !! SSHKeyID task).

(** The task is stored, [running], and the table holds a pending timer
    for it, set to the task's clamped interval. *)
Definition armed (task : OciCreateTask) (w : World) : Prop :=
  tasks w !! ID task = Some task
  /\ Status task = "running"
  /\ exists h, taskTimers w !! ID task = Some h
       /\ timers w !! h = Some (mkTimer (ID task) (clamp_interval task) Pending).

(** The provisioning attempt of the firing fails. *)
Definition fails (env : Env) : Prop := CreateInstance env <> None.

(** The stored task after a firing whose attempt failed. *)
Definition failed_once (task : OciCreateTask) (env : Env) : OciCreateTask :=
  with_message (with_execution task (now env))
               (extractOCIErrorMessage (CreateInstance env)).

Definition error_entry (taskID : string) (env : Env) : TaskLog :=
  mkLog taskID "error" (extractOCIErrorMessage (CreateInstance env)) (now env).

(** The stored task after a firing, or a one-shot execution, whose
    attempt succeeded. *)
Definition succeeded (task : OciCreateTask) (env : Env) : OciCreateTask :=
  with_status (with_message (with_success (with_execution task (now env))) "创建成功")
              "completed".

(** The log entries of a task, of one kind. *)
Definition logs_of (taskID kind : string) (w : World) : list TaskLog :=
  filter (fun e => log_TaskID e = taskID /\ log_Status e = kind) (task_logs w).

(** All the log entries of a task. *)
Definition task_log (taskID : string) (w : World) : list TaskLog :=
  filter (fun e => log_TaskID e = taskID) (task_logs w).

End TaskSpec.

(** Sample data for the worked examples. *)
Module Samples.
Import TaskService TaskSpec.

Definition task1 : OciCreateTask :=
  mkTask "t1" "u1" "k1" 60 "running" 0 0 None "".

(** A fresh service in which [task1] has just been added; the account
    and the key it refers to exist. *)
Definition world1 : World :=
  (AddTask task1
     (NewTaskService ∅ {["u1" := mkUser "alice"]} {["k1" := mkKey "ssh-rsa AAAA"]} [])).2.

(** The same, without the account. *)
Definition world_no_user : World :=
  (AddTask task1 (NewTaskService ∅ ∅ {["k1" := mkKey "ssh-rsa AAAA"]} [])).2.

(** The same, without the SSH key. *)
Definition world_no_key : World :=
  (AddTask task1 (NewTaskService ∅ {["u1" := mkUser "alice"]} ∅ [])).2.

Definition env_boom : Env := mkEnv 1000 (Some "boom").
Definition env_quota : Env :=
  mkEnv 2000 (Some "rpc failed. Message: quota exceeded. code: 42").
Definition env_ok : Env := mkEnv 3000 None.

End Samples.

Module BotSpec.
Import GoInt TelegramService.

(** The offset after a batch, from the identifiers alone. *)
Definition next_offset (offset : Z) (updates : list TelegramUpdate) : Z :=
  foldl (fun _ update => wrap64 (UpdateID update + 1)) offset updates.

Definition ids (updates : list TelegramUpdate) : list Z := UpdateID <$> updates.

(** The identifiers of a batch grow in arrival order, and each is an
    [int] below the largest one. *)
Definition ordered (updates : list TelegramUpdate) : Prop :=
  StronglySorted Z.lt (ids updates)
  /\ Forall (fun i => min_int <= i < max_int) (ids updates).

(** The updates the loop handles, in the order it handles them: those of
    every batch it receives. *)
Definition processed (resps : list (option (list TelegramUpdate))) : list Z :=
  concat ((fun resp => match resp with Some updates => ids updates | None => [] end)
            <$> resps).

(** The transport keeps its contract while the loop runs from [offset]:
    every batch is ordered and holds no identifier below the offset of
    the request it answers. *)
Fixpoint transport_ok (offset : Z) (resps : list (option (list TelegramUpdate)))
  : Prop :=
  match resps with
  | [] => True
  | None :: resps' => transport_ok offset resps'
  | Some updates :: resps' =>
      ordered updates
      /\ Forall (fun i => offset <= i) (ids updates)
      /\ transport_ok (next_offset offset updates) resps'
  end.

(** The offset after the loop has received [resps]. *)
Fixpoint loop_offset (offset : Z) (resps : list (option (list TelegramUpdate))) : Z :=
  match resps with
  | [] => offset
  | None :: resps' => loop_offset offset resps'
  | Some updates :: resps' => loop_offset (next_offset offset updates) resps'
  end.

(** The chat a text message comes from is not the configured one. *)
Definition message_unauthorized (s : Service) (m : Message) : Prop :=
  fmt_d (Chat_ID m) <> chatID s.

(** The user who pressed the button is not the configured one. *)
Definition callback_unauthorized (s : Service) (c : CallbackQuery) : Prop :=
  fmt_d (cb_From_ID c) <> chatID s.

(** Some part of the update comes from somebody else than the configured
    identity. *)
Definition unauthorized (s : Service) (u : TelegramUpdate) : Prop :=
  (exists m, update_Message u = Some m /\ message_unauthorized s m)
  \/ (exists c, update_CallbackQuery u = Some c /\ callback_unauthorized s c).

(** The calls that only [handleCallback] makes: a report, the edit that
    shows it, the deletion of the menu. *)
Definition is_dispatch (c : Call) : bool :=
  match c with
  | render _ | editMessageText _ _ _ _ | deleteMessage _ _ => true
  | _ => false
  end.

Definition update (i : Z) : TelegramUpdate := mkUpdate i None None.

(** What pressing the button does, when the button carries callback data:
    the menu message is deleted, or one report is shown in it. *)
Definition wired (report : Snapshot -> string) (button : InlineKeyboardButton) : Prop :=
  CallbackData button = EmptyString
  \/ forall cb, Data cb = CallbackData button ->
       handleCallback report cb
       = [deleteMessage (fmt_d (cb_Chat_ID cb)) (cb_MessageID cb)]
       \/ exists f, handleCallback report cb
                    = show report (fmt_d (cb_Chat_ID cb)) (cb_MessageID cb) f.

(** Some button of the main keyboard carries the callback data [d]. *)
Definition has_button (d : string) : Prop :=
  Exists (Exists (fun button => CallbackData button = d)) getMainKeyboard.

Definition service42 : Service := mkService "123456:ABCDEFGHIJKL" "42" true true ∅.

End BotSpec.

(* ===================================================================== *)
(** ** The rest of the bot service: configuration at start-up, outgoing
       messages (telegram_service.go) *)
(* ===================================================================== *)

Module BotOps.
Import TelegramService.

(** [loadConfig]: the three settings are read from the table; a setting
    that is not there reads as the empty string, and the bot is enabled
    when the stored text is ["true"]. *)
Definition loadConfig (s : Service) : Service :=
  mkService (default EmptyString (settings s !! SettingKeyTgBotToken))
            (default EmptyString (settings s !! SettingKeyTgChatID))
            (bool_decide (default EmptyString (settings s !! SettingKeyTgEnabled)
                          = "true"%string))
            (running s) (settings s).

(** [NewTelegramService] over a settings table. *)
Definition NewTelegramService (st : gmap string string) : Service :=
  loadConfig (mkService EmptyString EmptyString false false st).

(** What an HTTP request to the Bot API comes back with: an error of the
    connection, or a response with its status code. *)
Inductive HttpResult : Type :=
| HttpError (e : string)
| HttpStatus (code : Z).

(** The error [doSendMessage] returns, from the answer to its request. *)
Definition doSendMessage_result (resp : HttpResult) : option string :=
  match resp with
  | HttpError e => Some ("failed to send message: " +:+ e)%string
  | HttpStatus code =>
      if decide (code <> 200) then
        Some ("telegram API returned status: " +:+ fmt_d code)%string
      else None
  end.

(** [doSendMessage]: one [sendMessage] request, and its outcome. *)
Definition doSendMessage (chat text : string) (replyMarkup : option InlineKeyboardMarkup)
           (resp : HttpResult) : option string * list Call :=
  (doSendMessage_result resp, [sendMessage chat text replyMarkup]).

Definition ErrNotConfigured : string := "telegram not configured or disabled".

(** [SendMessage] *)
Definition SendMessage (message : string) (resp : HttpResult) (s : Service)
  : option string * list Call :=
  if negb (enabled s) || String.eqb (botToken s) "" || String.eqb (chatID s) ""
  then (Some ErrNotConfigured, [])
  else doSendMessage (chatID s) message None resp.

(** [SendNotification]; [stamp] is the formatted local time. *)
Definition SendNotification (title message stamp : string) (resp : HttpResult)
           (s : Service) : option string * list Call :=
  SendMessage ("<b>" +:+ title +:+ "</b>" +:+ String "010" (String "010" message)
               +:+ String "010" (String "010" ("🕐 " +:+ stamp)))%string
              resp s.

(** [TestConnection]: the error returned, and whether the [getMe] request
    was made at all. *)
Definition TestConnection (resp : HttpResult) (s : Service) : option string * bool :=
  if String.eqb (botToken s) "" then (Some "bot token not configured"%string, false)
  else
    match resp with
    | HttpError e => (Some ("connection failed: " +:+ e)%string, true)
    | HttpStatus code =>
        if decide (code <> 200) then (Some "invalid bot token"%string, true)
        else (None, true)
    end.

End BotOps.

(* ===================================================================== *)
(** ** The other HTTP handlers of the bot (telegram_controller.go) *)
(* ===================================================================== *)

Module BotHandlers.
Import TelegramService TelegramController BotOps.

(** The status code of the answer and the message of its body. *)
Record Response : Type := mkResponse { code : Z; message : string }.

Definition default_test_message : string :=
  ("🔔 OCI Panel 测试消息" +:+ String "010" (String "010" "Telegram 通知功能配置成功！"))%string.

(** [TestConnection] *)
Definition TestConnection (resp : HttpResult) (s : Service) : Response :=
  match (BotOps.TestConnection resp s).1 with
  | Some err => mkResponse 400 ("连接测试失败: " +:+ err)
  | None => mkResponse 200 "连接测试成功"
  end.

(** [SendTestMessage], for a request body that binds. *)
Definition SendTestMessage (req_Message : string) (resp : HttpResult) (s : Service)
  : Response * list Call :=
  let message :=
    if String.eqb req_Message "" then default_test_message else req_Message in
  let '(err, calls) := SendMessage message resp s in
  match err with
  | Some e => (mkResponse 400 ("发送失败: " +:+ e), calls)
  | None => (mkResponse 200 "消息发送成功", calls)
  end.

(** [StartBot] *)
Definition StartBot (s : Service) : Response * Service :=
  let '(token, chat, en) := TelegramService.GetConfig s in
  if negb en || String.eqb token "" || String.eqb chat ""
  then (mkResponse 400 "请先配置并启用 Telegram", s)
  else (mkResponse 200 "Bot 已启动", TelegramService.StartBot s).

(** [StopBot] *)
Definition StopBot (s : Service) : Response * Service :=
  (mkResponse 200 "Bot 已停止", TelegramService.StopBot s).

(** [GetBotStatus] *)
Definition GetBotStatus (s : Service) : bool := IsRunning s.

(** The service as the handlers drive it. *)
Inductive handler_step : Service -> Service -> Prop :=
| handler_UpdateConfig s req : handler_step s (UpdateConfig req s)
| handler_StartBot s : handler_step s (StartBot s).2
| handler_StopBot s : handler_step s (StopBot s).2.

Inductive handler_reachable : Service -> Prop :=
| handler_init st : handler_reachable (NewTelegramService st)
| handler_next s s' : handler_reachable s -> handler_step s s' -> handler_reachable s'.

(** The bot is enabled and has a token and a chat. *)
Definition configured (s : Service) : Prop :=
  enabled s = true /\ botToken s <> EmptyString /\ chatID s <> EmptyString.

End BotHandlers.

(** Vocabulary for the scheduler's further properties. *)
Module SchedSpec.
Import TaskService TaskSpec.

(** Every entry of the table points to a timer of its own task. *)
Definition table_wf (w : World) : Prop :=
  forall k h, taskTimers w !! k = Some h ->
              exists tm, timers w !! h = Some tm /\ tm_task tm = k.

(** The three invariants of the scheduler together. *)
Definition sched_inv (w : World) : Prop :=
  timers_inv w /\ table_wf w /\ tasks_wf w.

(** A service over a well-formed task table, then any run. *)
Inductive run : World -> Prop :=
| run_init tk us ks lg :
    (forall k t, tk !! k = Some t -> ID t = k) ->
    run (NewTaskService tk us ks lg)
| run_step w w' : run w -> step w w' -> run w'.

(** The timer [h] of [heap] belongs to task [k] and is still to fire. *)
Definition pending_at (k : string) (heap : list Timer) (h : nat) : Prop :=
  exists tm, heap !! h = Some tm /\ tm_task tm = k /\ tm_state tm = Pending.

(** The firing leaves the other tasks alone: row, log, table entry and
    timers. *)
Definition same_elsewhere (taskID : string) (w w' : World) : Prop :=
  forall k, k <> taskID ->
    tasks w' !! k = tasks w !! k
    /\ task_log k w' = task_log k w
    /\ taskTimers w' !! k = taskTimers w !! k
    /\ forall h, h ∈ pending_for k w' <-> h ∈ pending_for k w.

End SchedSpec.

(* ===================================================================== *)
(** ** Two of the reports: the liveness check and the instance counts
       (telegram_service.go) *)
(* ===================================================================== *)

Module Reports.
Import GoInt TelegramService.

(** The fields of [models.OciUser] the two reports print. *)
Record Account : Type := mkAccount { acc_Username : string; acc_OciRegion : string }.

(** The field of an instance the report looks at. *)
Record Instance : Type := mkInstance { LifecycleState : string }.

Definition nl : string := String "010" EmptyString.

(** [strings.Join] *)
Fixpoint join (sep : string) (l : list string) : string :=
  match l with
  | [] => EmptyString
  | [x] => x
  | x :: l' => (x +:+ sep +:+ join sep l')%string
  end.

(** The loop of [checkAlive]: each account comes with the error of its
    [ListInstances] call, [None] when the call succeeded.  The result is
    [validCount], [invalidCount] and [invalidNames]. *)
Definition alive_tally (probes : list (Account * option string)) : Z * Z * list string :=
  foldl (fun '(validCount, invalidCount, invalidNames) '(user, err) =>
           match err with
           | Some _ =>
               (validCount, wrap64 (invalidCount + 1),
                invalidNames ++ [acc_Username user])
           | None => (wrap64 (validCount + 1), invalidCount, invalidNames)
           end)
        (0, 0, []) probes.

(** [checkAlive]; [None] is a failing [db.Find]. *)
Definition checkAlive (users : option (list (Account * option string))) : string :=
  match users with
  | None => "❌ 获取配置失败"
  | Some [] => ("【API测活结果】" +:+ nl +:+ nl +:+ "暂无配置")%string
  | Some probes =>
      let '(validCount, invalidCount, invalidNames) := alive_tally probes in
      let result :=
        ("【API测活结果】" +:+ nl +:+ nl
         +:+ "✅ 有效配置数：" +:+ fmt_d validCount +:+ nl
         +:+ "❌ 失效配置数：" +:+ fmt_d invalidCount +:+ nl
         +:+ "🔑 总配置数：" +:+ fmt_d (Z.of_nat (length probes)))%string in
      if (0 <? length invalidNames)%nat then
        (result +:+ nl +:+ nl +:+ "⚠️ 失效配置：" +:+ nl +:+ join nl invalidNames)%string
      else result
  end.

(** The inner loop of [getInstanceStats]: the instances that are
    [RUNNING]. *)
Definition count_running (instances : list Instance) : Z :=
  foldl (fun running inst =>
           if decide (LifecycleState inst = "RUNNING"%string) then wrap64 (running + 1)
           else running)
        0 instances.

(** The loop of [getInstanceStats]: each account comes with the outcome
    of its [ListInstances] call.  The result is [totalInstances],
    [runningInstances] and the lines of [stats]. *)
Definition instance_tally (probes : list (Account * (string + list Instance)))
  : Z * Z * list string :=
  foldl (fun '(totalInstances, runningInstances, stats) '(user, res) =>
           match res with
           | inl _ =>
               (totalInstances, runningInstances,
                stats ++ [("❌ " +:+ acc_Username user +:+ ": 获取失败")%string])
           | inr instances =>
               let running := count_running instances in
               (wrap64 (totalInstances + Z.of_nat (length instances)),
                wrap64 (runningInstances + running),
                stats ++ [("🔑 " +:+ acc_Username user +:+ " [" +:+ acc_OciRegion user
                           +:+ "]: " +:+ fmt_d (Z.of_nat (length instances))
                           +:+ "台 (运行中: " +:+ fmt_d running +:+ ")")%string])
           end)
        (0, 0, []) probes.

(** [getInstanceStats]; [stamp] is the formatted local time. *)
Definition getInstanceStats (stamp : string)
           (users : option (list (Account * (string + list Instance)))) : string :=
  match users with
  | None => "❌ 获取配置失败"
  | Some [] => ("【实例统计】" +:+ nl +:+ nl +:+ "暂无配置")%string
  | Some probes =>
      let '(totalInstances, runningInstances, stats) := instance_tally probes in
      ("【实例统计】" +:+ nl +:+ nl
       +:+ "🕐 时间：" +:+ stamp +:+ nl
       +:+ "📊 总实例数：" +:+ fmt_d totalInstances +:+ nl
       +:+ "🟢 运行中：" +:+ fmt_d runningInstances +:+ nl +:+ nl
       +:+ join nl stats)%string
  end.

(** The probes that failed, and the instances of those that did not. *)
Definition failed (p : Account * option string) : Prop := p.2 <> None.

Definition all_instances (probes : list (Account * (string + list Instance)))
  : list Instance :=
  concat ((fun p : Account * (string + list Instance) =>
             match p.2 with inr instances => instances | inl _ => [] end) <$> probes).

Definition is_running (inst : Instance) : Prop := LifecycleState inst = "RUNNING"%string.

End Reports.

(* ===================================================================== *)
(** ** Properties of the message extraction *)
(* ===================================================================== *)

Section ErrMsgFacts.
Import Regexp ErrMsg Spec.

#[local] Arguments String.append !_ _ / : simpl nomatch.

Lemma string_app_assoc (a b c : string) : (a +:+ b) +:+ c = a +:+ (b +:+ c).
Proof. induction a as [|x a IH]; simpl; [done | by rewrite IH]. Qed.

Lemma string_app_nil_r (a : string) : a +:+ "" = a.
Proof. induction a as [|x a IH]; simpl; [done | by rewrite IH]. Qed.

Lemma strip_prefix_Some l s s' : strip_prefix l s = Some s' <-> s = l +:+ s'.
Proof.
  revert s. induction l as [|a l IH]; intros s; simpl.
  - split; [by intros [= ->] | by intros ->].
  - destruct s as [|b s]; [split; [done | by intros [=]] |].
    destruct (Ascii.eqb_spec a b) as [-> | Hne].
    + rewrite IH. split; [by intros -> | by intros [= ->]].
    + split; [done | intros [= ? ?]; congruence].
Qed.

Lemma strip_prefix_app l s : strip_prefix l (l +:+ s) = Some s.
Proof. by apply strip_prefix_Some. Qed.

(** Greedy star over a run of the class, when the continuation takes
    over at the first character outside it. *)
Lemma star_run p k ws t r :
  all_chars p ws = true -> k t = Some r ->
  (t = EmptyString \/ exists c t', t = String c t' /\ p c = false) ->
  star p k (ws +:+ t) = Some r.
Proof.
  intros Hws Hk Ht. induction ws as [|c ws IH]; simpl in *.
  - destruct Ht as [-> | (c & t' & -> & Hc)]; simpl; [done | by rewrite Hc].
  - apply andb_prop in Hws as [Hc Hws]. rewrite Hc, (IH Hws). done.
Qed.

Lemma star_inv p k s r :
  star p k s = Some r ->
  exists ws t, s = ws +:+ t /\ all_chars p ws = true /\ k t = Some r.
Proof.
  induction s as [|c s IH]; simpl.
  - intros H. by exists EmptyString, EmptyString.
  - destruct (p c) eqn:Hc.
    + destruct (star p k s) as [r'|] eqn:Hs.
      * intros [= ->]. destruct (IH eq_refl) as (ws & t & -> & Hws & Hk).
        exists (String c ws), t. simpl. by rewrite Hc, Hws.
      * intros H. by exists EmptyString, (String c s).
    + intros H. by exists EmptyString, (String c s).
Qed.

(** The capture group, last in the pattern, takes the whole run. *)
Lemma plus_cap_run p acc frag rest :
  frag <> EmptyString -> all_chars p frag = true ->
  (rest = EmptyString \/ exists c t', rest = String c t' /\ p c = false) ->
  plus_cap p accept acc (frag +:+ rest) = Some (acc +:+ frag).
Proof.
  revert acc. induction frag as [|c frag IH]; intros acc Hne Hall Hrest; [done |].
  simpl in *. apply andb_prop in Hall as [Hc Hall]. rewrite Hc.
  destruct frag as [|c' frag].
  - simpl. destruct Hrest as [-> | (d & t' & -> & Hd)]; simpl; [done | by rewrite Hd].
  - rewrite IH; [| done | done | done]. by rewrite string_app_assoc.
Qed.

Lemma plus_cap_inv p acc s r :
  plus_cap p accept acc s = Some r ->
  exists frag rest, s = frag +:+ rest /\ frag <> EmptyString
    /\ all_chars p frag = true /\ r = acc +:+ frag
    /\ (rest = EmptyString \/ exists c t', rest = String c t' /\ p c = false).
Proof.
  revert acc. induction s as [|c s IH]; intros acc; simpl; [done |].
  destruct (p c) eqn:Hc; [| done].
  destruct (plus_cap p accept (acc +:+ String c "") s) as [r'|] eqn:Hs.
  - intros [= ->]. destruct (IH _ Hs) as (frag & rest & -> & Hne & Hall & -> & Hrest).
    exists (String c frag), rest. simpl. rewrite Hc, Hall.
    rewrite string_app_assoc. done.
  - intros [= <-]. exists (String c ""), s. simpl. rewrite Hc.
    repeat split; try done.
    destruct s as [|d s]; [by left | right].
    exists d, s. split; [done |]. simpl in Hs.
    destruct (p d); [| done].
    by destruct (plus_cap p accept _ s).
Qed.

Lemma match_here_re cap s :
  match_here re cap s =
  match strip_prefix marker s with
  | Some s' => star is_space (plus_cap not_dot accept EmptyString) s'
  | None => None
  end.
Proof. reflexivity. Qed.

Lemma not_dot_false c : not_dot c = false <-> c = "."%char.
Proof.
  unfold not_dot. destruct (Ascii.eqb_spec c "."); simpl; split; congruence.
Qed.

Lemma rest_stops rest :
  (rest = EmptyString \/ exists c t', rest = String c t' /\ not_dot c = false)
  <-> stops_at_period rest.
Proof.
  unfold stops_at_period, starts_with_dot. split.
  - intros [-> | (c & t' & -> & Hc)]; [by left | right].
    apply not_dot_false in Hc as ->. by eexists.
  - intros [-> | (t' & ->)]; [by left | right]. by exists "."%char, t'.
Qed.

(** A successful match at the start of [s] has the expected shape. *)
Lemma match_here_inv s m :
  match_here re EmptyString s = Some m ->
  exists ws rest, s = marker +:+ ws +:+ m +:+ rest
    /\ all_chars is_space ws = true /\ m <> EmptyString
    /\ all_chars not_dot m = true /\ stops_at_period rest.
Proof.
  rewrite match_here_re.
  destruct (strip_prefix marker s) as [s'|] eqn:Hp; [| done].
  apply strip_prefix_Some in Hp as ->. intros Hs.
  apply star_inv in Hs as (ws & t & -> & Hws & Hk).
  apply plus_cap_inv in Hk as (frag & rest & -> & Hne & Hall & -> & Hrest).
  exists ws, rest. simpl. repeat split; try done. by apply rest_stops.
Qed.

Lemma match_here_fragment ws frag rest :
  fragment_after_marker ws frag rest ->
  match_here re EmptyString (marker +:+ ws +:+ frag +:+ rest) = Some frag.
Proof.
  intros (Hws & (c & frag' & -> & Hc) & Hall & Hrest).
  rewrite match_here_re, strip_prefix_app.
  apply star_run; [done | | right; by exists c, (frag' +:+ rest)].
  apply (plus_cap_run not_dot EmptyString (String c frag') rest); [done | done |].
  by apply rest_stops.
Qed.

Lemma match_here_marker_dot b :
  match_here re EmptyString (marker +:+ String "."%char b) = None.
Proof. reflexivity. Qed.

Lemma find_no_marker s : ~ has_marker s -> FindStringSubmatch re s = None.
Proof.
  induction s as [|c s IH]; intros Hno.
  - reflexivity.
  - cbn [FindStringSubmatch]. rewrite match_here_re.
    destruct (strip_prefix marker (String c s)) as [s'|] eqn:Hp.
    + apply strip_prefix_Some in Hp. destruct Hno. by exists EmptyString, s'.
    + apply IH. intros (a & b & ->). apply Hno. by exists (String c a), b.
Qed.

Lemma find_unfold s :
  FindStringSubmatch re s =
  match match_here re EmptyString s with
  | Some cap => Some cap
  | None =>
      match s with
      | String _ s' => FindStringSubmatch re s'
      | EmptyString => None
      end
  end.
Proof. by destruct s. Qed.

Lemma find_first_fragment pre ws frag rest :
  fragment_after_marker ws frag rest ->
  no_capture_before (String.length pre) (pre +:+ marker +:+ ws +:+ frag +:+ rest) ->
  FindStringSubmatch re (pre +:+ marker +:+ ws +:+ frag +:+ rest) = Some frag.
Proof.
  intros Hf. induction pre as [|c pre IH]; intros Hno.
  - change (FindStringSubmatch re (marker +:+ ws +:+ frag +:+ rest) = Some frag).
    by rewrite find_unfold, (match_here_fragment _ _ _ Hf).
  - rewrite find_unfold.
    destruct (match_here re EmptyString _) as [m|] eqn:Hm.
    + exfalso. pose proof Hm as Hm'. rewrite match_here_re in Hm'.
      destruct (strip_prefix marker _) as [s'|] eqn:Hp; [| done].
      apply strip_prefix_Some in Hp.
      destruct (Hno EmptyString s' Hp) as [b ->]; [simpl; lia |].
      by rewrite Hp, match_here_marker_dot in Hm.
    + simpl. apply IH. intros a b Hab Hlen.
      apply (Hno (String c a) b); [exact (f_equal (String c) Hab) | simpl; lia].
Qed.

(** What the extraction returns, in full: the capture of the leftmost
    match when there is one, the raw text otherwise. *)
Lemma extract_cases s :
  (FindStringSubmatch re s = None /\ extractOCIErrorMessage (Some s) = s)
  \/ (exists m, FindStringSubmatch re s = Some m /\ m <> EmptyString
                /\ extractOCIErrorMessage (Some s) = m).
Proof.
  unfold extractOCIErrorMessage.
  destruct (FindStringSubmatch re s) as [m|] eqn:Hf; [right | by left].
  exists m. assert (m <> EmptyString) as Hne.
  { clear -Hf. induction s as [|c s IH]; rewrite find_unfold in Hf.
    - destruct (match_here re "" "") eqn:Hm; [| done].
      injection Hf as ->. by apply match_here_inv in Hm as (? & ? & ? & ? & ? & ?).
    - destruct (match_here re "" (String c s)) eqn:Hm; [| by apply IH].
      injection Hf as ->. by apply match_here_inv in Hm as (? & ? & ? & ? & ? & ?). }
  by rewrite decide_True.
Qed.

Lemma find_inv s m :
  FindStringSubmatch re s = Some m ->
  exists pre ws rest, s = pre +:+ marker +:+ ws +:+ m +:+ rest
    /\ all_chars is_space ws = true /\ m <> EmptyString
    /\ all_chars not_dot m = true /\ stops_at_period rest.
Proof.
  induction s as [|c s IH]; rewrite find_unfold.
  - destruct (match_here re "" "") eqn:Hm; [| done]. intros [= ->].
    apply match_here_inv in Hm as (ws & rest & ? & ?). by exists EmptyString, ws, rest.
  - destruct (match_here re "" (String c s)) eqn:Hm.
    + intros [= ->].
      apply match_here_inv in Hm as (ws & rest & ? & ?). by exists EmptyString, ws, rest.
    + intros Hs. destruct (IH Hs) as (pre & ws & rest & -> & ?).
      by exists (String c pre), ws, rest.
Qed.


(** C2. The message extraction returns the raw text when the text holds no
    ["Message:"] marker; it returns the first fragment after a marker,
    cut at the first period, when there is one; whatever it returns is
    the raw text or such a fragment, and is never empty for a text that is
    not empty.  ["boom"] gives ["boom"]; ["rpc failed. Message: quota
    exceeded. code: 42"] gives ["quota exceeded"]. *)
Theorem extractOCIErrorMessage_spec :
  (forall s, ~ has_marker s -> extractOCIErrorMessage (Some s) = s)
  /\ (forall pre ws frag rest,
        fragment_after_marker ws frag rest ->
        no_capture_before (String.length pre)
                          (pre +:+ marker +:+ ws +:+ frag +:+ rest) ->
        extractOCIErrorMessage (Some (pre +:+ marker +:+ ws +:+ frag +:+ rest))
        = frag)
  /\ (forall s,
        extractOCIErrorMessage (Some s) = s
        \/ exists pre ws rest,
             s = pre +:+ marker +:+ ws +:+ extractOCIErrorMessage (Some s) +:+ rest
             /\ all_chars is_space ws = true
             /\ all_chars not_dot (extractOCIErrorMessage (Some s)) = true
             /\ stops_at_period rest)
  /\ (forall s, s <> EmptyString -> extractOCIErrorMessage (Some s) <> EmptyString)
  /\ extractOCIErrorMessage (Some "boom") = "boom"
  /\ extractOCIErrorMessage (Some "rpc failed. Message: quota exceeded. code: 42")
     = "quota exceeded".
Proof.
  split; [| split; [| split; [| split; [| split; reflexivity]]]].
  - intros s Hno. destruct (extract_cases s) as [[_ H] | (m & Hm & _)]; [done |].
    by rewrite find_no_marker in Hm.
  - intros pre ws frag rest Hf Hno.
    destruct (extract_cases (pre +:+ marker +:+ ws +:+ frag +:+ rest))
      as [[Hn _] | (m & Hm & _ & ->)];
      rewrite (find_first_fragment _ _ _ _ Hf Hno) in *; congruence.
  - intros s. destruct (extract_cases s) as [[_ H] | (m & Hm & _ & ->)]; [by left |].
    right. apply find_inv in Hm as (pre & ws & rest & -> & Hws & _ & Hnd & Hrest).
    by exists pre, ws, rest.
  - intros s Hs. destruct (extract_cases s) as [[_ ->] | (m & _ & Hm & ->)]; done.
Qed.

Lemma extractOCIErrorMessage_spec_witness :
  ~ has_marker "boom"
  /\ extractOCIErrorMessage (Some "boom") = "boom"
  /\ fragment_after_marker " " "quota exceeded" ". code: 42"
  /\ extractOCIErrorMessage
       (Some ("rpc failed. " +:+ marker +:+ " " +:+ "quota exceeded" +:+ ". code: 42"))
     = "quota exceeded"
  /\ extractOCIErrorMessage (Some "Message:.") <> EmptyString.
Proof.
  assert (~ has_marker "boom") as Hno.
  { intros (a & b & H).
    repeat (destruct a as [|? a]; [discriminate H | injection H as _ H]).
    by destruct a. }
  assert (fragment_after_marker " " "quota exceeded" ". code: 42") as Hf.
  { repeat split; [by eexists _, _ | right; by eexists]. }
  split; [done |].
  split; [exact (proj1 extractOCIErrorMessage_spec "boom" Hno) |].
  split; [done |].
  split.
  - apply (proj1 (proj2 extractOCIErrorMessage_spec) "rpc failed. " " "
                 "quota exceeded" ". code: 42" Hf).
    intros a b H Hlen. exfalso. simpl in Hlen.
    do 12 (destruct a as [|? a]; [discriminate H | injection H as _ H]).
    simpl in Hlen. lia.
  - by apply (proj1 (proj2 (proj2 (proj2 extractOCIErrorMessage_spec)))).
Defined.

End ErrMsgFacts.

(* ===================================================================== *)
(** ** The timers of the scheduler *)
(* ===================================================================== *)

Section TimerFacts.
Import GoInt ErrMsg TaskService.

Implicit Types (w : World) (task : OciCreateTask) (tm : Timer) (h : nat).

Lemma stop_timer_not_pending tm : tm_state (stop_timer tm) <> Pending.
Proof. unfold stop_timer. by destruct (tm_state tm) eqn:E; simpl; rewrite ?E. Qed.

Lemma stop_timer_task tm : tm_task (stop_timer tm) = tm_task tm.
Proof. unfold stop_timer. by destruct (tm_state tm). Qed.

Lemma stop_timer_other tm : tm_state tm <> Pending -> stop_timer tm = tm.
Proof. unfold stop_timer. by destruct (tm_state tm). Qed.

(** A timer that is pending after [timer_Stop e] is another timer, and
    was pending before. *)
Lemma timer_Stop_pending e heap h tm :
  timer_Stop e heap !! h = Some tm -> tm_state tm = Pending ->
  h <> e /\ heap !! h = Some tm.
Proof.
  unfold timer_Stop. intros Hl Hp. destruct (decide (e = h)) as [-> | Hne].
  - rewrite list_lookup_alter_eq in Hl.
    destruct (heap !! h) as [tm0|]; simplify_eq/=.
    by destruct (stop_timer_not_pending tm0).
  - by rewrite list_lookup_alter_ne in Hl.
Qed.

Lemma timer_Stop_stopped e heap tm :
  heap !! e = Some tm ->
  timer_Stop e heap !! e = Some (stop_timer tm).
Proof. intros H. unfold timer_Stop. by rewrite list_lookup_alter_eq, H. Qed.

Lemma timer_Stop_ne e heap h : e <> h -> timer_Stop e heap !! h = heap !! h.
Proof. intros. unfold timer_Stop. by rewrite list_lookup_alter_ne. Qed.

Lemma timer_Stop_length e heap : length (timer_Stop e heap) = length heap.
Proof. apply length_alter. Qed.

Lemma stopped_heap_length task w : length (stopped_heap task w) = length (timers w).
Proof. unfold stopped_heap. destruct (_ !! _); [apply timer_Stop_length | done]. Qed.

Lemma scheduleTask_timers task w :
  timers (scheduleTask task w)
  = stopped_heap task w ++ [mkTimer (ID task) (clamp_interval task) Pending].
Proof. reflexivity. Qed.

Lemma scheduleTask_taskTimers task w :
  taskTimers (scheduleTask task w) = <[ID task := length (timers w)]> (taskTimers w).
Proof.
  unfold scheduleTask. simpl. by rewrite stopped_heap_length.
Qed.

Lemma scheduleTask_db task w :
  tasks (scheduleTask task w) = tasks w
  /\ users (scheduleTask task w) = users w
  /\ ssh_keys (scheduleTask task w) = ssh_keys w
  /\ task_logs (scheduleTask task w) = task_logs w
  /\ running (scheduleTask task w) = running w.
Proof. done. Qed.

(** The timer [scheduleTask] registers: pending, for this task, with the
    clamped interval. *)
Lemma scheduleTask_registered task w :
  exists h, taskTimers (scheduleTask task w) !! ID task = Some h
    /\ timers (scheduleTask task w) !! h
       = Some (mkTimer (ID task) (clamp_interval task) Pending).
Proof.
  exists (length (timers w)). rewrite scheduleTask_taskTimers, lookup_insert_eq.
  split; [done |]. rewrite scheduleTask_timers.
  rewrite <- (stopped_heap_length task w). by rewrite list_lookup_middle.
Qed.

(** [scheduleTask] stops the timer it replaces. *)
Lemma scheduleTask_stops_existing task w e tm :
  taskTimers w !! ID task = Some e -> timers w !! e = Some tm ->
  timers (scheduleTask task w) !! e = Some (stop_timer tm).
Proof.
  intros He Htm. rewrite scheduleTask_timers. unfold stopped_heap. rewrite He.
  apply lookup_app_l_Some. by apply timer_Stop_stopped.
Qed.

Lemma stopped_heap_pending task w h tm :
  stopped_heap task w !! h = Some tm -> tm_state tm = Pending ->
  timers w !! h = Some tm /\ taskTimers w !! ID task <> Some h.
Proof.
  unfold stopped_heap. intros Hl Hp.
  destruct (taskTimers w !! ID task) as [e|] eqn:He; [| done].
  destruct (timer_Stop_pending _ _ _ _ Hl Hp) as [Hne ?]. split; [done | congruence].
Qed.

Lemma timers_inv_scheduleTask task w :
  timers_inv w -> timers_inv (scheduleTask task w).
Proof.
  intros Hinv h tm Hl Hp.
  rewrite scheduleTask_timers in Hl. rewrite scheduleTask_taskTimers.
  apply lookup_app_Some in Hl as [Hl | [Hlen Hl]].
  - destruct (stopped_heap_pending _ _ _ _ Hl Hp) as [Hl' Hne].
    pose proof (Hinv _ _ Hl' Hp) as Ht.
    rewrite lookup_insert_ne; [done | congruence].
  - rewrite stopped_heap_length in Hlen, Hl.
    destruct (h - length (timers w))%nat as [|n] eqn:E; [| by destruct n].
    simpl in Hl. injection Hl as <-. simpl.
    rewrite lookup_insert_eq. f_equal. lia.
Qed.

(** [removeTaskTimer] stops the timer it takes out of the table. *)
Lemma removeTaskTimer_stops taskID w e tm :
  taskTimers w !! taskID = Some e -> timers w !! e = Some tm ->
  timers (removeTaskTimer taskID w) !! e = Some (stop_timer tm)
  /\ taskTimers (removeTaskTimer taskID w) !! taskID = None.
Proof.
  intros He Htm. unfold removeTaskTimer. rewrite He. simpl.
  by rewrite (timer_Stop_stopped _ _ _ Htm), lookup_delete_eq.
Qed.

Lemma removeTaskTimer_unregistered taskID w :
  taskTimers (removeTaskTimer taskID w) !! taskID = None.
Proof.
  unfold removeTaskTimer. destruct (taskTimers w !! taskID) eqn:He; [| done].
  simpl. apply lookup_delete_eq.
Qed.

Lemma removeTaskTimer_db taskID w :
  tasks (removeTaskTimer taskID w) = tasks w
  /\ users (removeTaskTimer taskID w) = users w
  /\ ssh_keys (removeTaskTimer taskID w) = ssh_keys w
  /\ task_logs (removeTaskTimer taskID w) = task_logs w
  /\ running (removeTaskTimer taskID w) = running w.
Proof. unfold removeTaskTimer. by destruct (taskTimers w !! taskID). Qed.

Lemma timers_inv_removeTaskTimer taskID w :
  timers_inv w -> timers_inv (removeTaskTimer taskID w).
Proof.
  intros Hinv. unfold removeTaskTimer.
  destruct (taskTimers w !! taskID) as [e|] eqn:He; [| done].
  intros h tm Hl Hp. simpl in *.
  destruct (timer_Stop_pending _ _ _ _ Hl Hp) as [Hne Hl'].
  pose proof (Hinv _ _ Hl' Hp) as Ht.
  rewrite lookup_delete_ne; [done | congruence].
Qed.

(** After [removeTaskTimer], no timer of the task is left to fire. *)
Lemma removeTaskTimer_no_pending taskID w h tm :
  timers_inv w ->
  timers (removeTaskTimer taskID w) !! h = Some tm -> tm_task tm = taskID ->
  tm_state tm <> Pending.
Proof.
  intros Hinv Hl Ht Hp.
  pose proof (timers_inv_removeTaskTimer taskID w Hinv _ _ Hl Hp) as H.
  rewrite Ht, removeTaskTimer_unregistered in H. done.
Qed.


(** *** Stop *)

Lemma stop_timer_idemp tm : stop_timer (stop_timer tm) = stop_timer tm.
Proof. apply stop_timer_other, stop_timer_not_pending. Qed.

Lemma foldr_timer_Stop_lookup hs heap h :
  foldr timer_Stop heap hs !! h
  = (if decide (h ∈ hs) then stop_timer else id) <$> heap !! h.
Proof.
  induction hs as [|e hs IH]; cbn [foldr].
  - rewrite decide_False by apply not_elem_of_nil. by destruct (heap !! h).
  - destruct (decide (e = h)) as [-> | Hne].
    + unfold timer_Stop at 1. rewrite list_lookup_alter_eq, IH.
      rewrite (decide_True (P := h ∈ h :: hs)) by apply list_elem_of_here.
      destruct (heap !! h) as [tm|]; [| done]. simpl.
      case_decide; simpl; [by rewrite stop_timer_idemp | done].
    + rewrite timer_Stop_ne, IH by done.
      destruct (decide (h ∈ hs)) as [Hin | Hnin].
      * rewrite decide_True; [done | by apply list_elem_of_further].
      * rewrite decide_False; [done |].
        intros [? | ?]%elem_of_cons; congruence.
Qed.

Lemma registered_handle w k e :
  taskTimers w !! k = Some e -> e ∈ (map_to_list (taskTimers w)).*2.
Proof.
  intros He. apply list_elem_of_fmap. exists (k, e). split; [done |].
  by apply elem_of_map_to_list.
Qed.

(** [Stop] stops every timer of the table. *)
Lemma Stop_stops w k e tm :
  running w = true -> taskTimers w !! k = Some e -> timers w !! e = Some tm ->
  timers (Stop w) !! e = Some (stop_timer tm) /\ taskTimers (Stop w) = ∅.
Proof.
  intros Hr He Htm. unfold Stop, stop_timers. rewrite Hr. simpl. split; [| done].
  rewrite foldr_timer_Stop_lookup, Htm.
  by rewrite decide_True by by eapply registered_handle.
Qed.

Lemma timers_inv_stop_timers w : timers_inv w -> timers_inv (stop_timers w).
Proof.
  intros Hinv h tm Hl Hp. unfold stop_timers in *. simpl in *. exfalso.
  rewrite foldr_timer_Stop_lookup in Hl.
  destruct (timers w !! h) as [tm0|] eqn:Htm; [| done]. simpl in Hl.
  case_decide as Hin.
  - injection Hl as <-. by destruct (stop_timer_not_pending tm0).
  - injection Hl as <-. apply Hin. eapply registered_handle. by apply Hinv.
Qed.

Lemma timers_inv_Stop w : timers_inv w -> timers_inv (Stop w).
Proof.
  intros Hinv. unfold Stop. destruct (running w); [| done].
  by apply (timers_inv_stop_timers (set_running false w)).
Qed.

(** *** Start *)

Lemma timers_inv_foldl_scheduleTask ts w :
  timers_inv w -> timers_inv (foldl (fun w task => scheduleTask task w) w ts).
Proof.
  revert w. induction ts as [|t ts IH]; intros w Hinv; [done |].
  simpl. by apply IH, timers_inv_scheduleTask.
Qed.

Lemma timers_inv_Start w : timers_inv w -> timers_inv (Start w).
Proof.
  intros Hinv. unfold Start. destruct (running w); [done |].
  by apply timers_inv_foldl_scheduleTask.
Qed.

(** *** The other entry points *)

Lemma timers_inv_AddTask task w : timers_inv w -> timers_inv (AddTask task w).2.
Proof.
  intros Hinv. unfold AddTask. destruct (tasks w !! ID task); [done |]. simpl.
  case_decide; [by apply timers_inv_scheduleTask | done].
Qed.

Lemma timers_inv_StartTask taskID w : timers_inv w -> timers_inv (StartTask taskID w).2.
Proof.
  intros Hinv. unfold StartTask. destruct (tasks w !! taskID); [| done]. simpl.
  by apply timers_inv_scheduleTask.
Qed.

Lemma timers_inv_StopTask taskID w : timers_inv w -> timers_inv (StopTask taskID w).2.
Proof. intros Hinv. unfold StopTask. simpl. by apply timers_inv_removeTaskTimer. Qed.

Lemma timers_inv_DeleteTask taskID w : timers_inv w -> timers_inv (DeleteTask taskID w).2.
Proof.
  intros Hinv. unfold DeleteTask. simpl.
  by apply (timers_inv_removeTaskTimer taskID) in Hinv.
Qed.

Lemma ExecuteTaskOnce_timers taskID env w :
  taskTimers (ExecuteTaskOnce taskID env w).2 = taskTimers w
  /\ timers (ExecuteTaskOnce taskID env w).2 = timers w.
Proof. unfold ExecuteTaskOnce. by repeat case_match. Qed.

Lemma timers_inv_ExecuteTaskOnce taskID env w :
  timers_inv w -> timers_inv (ExecuteTaskOnce taskID env w).2.
Proof.
  intros Hinv h tm. destruct (ExecuteTaskOnce_timers taskID env w) as [-> ->].
  apply Hinv.
Qed.

Lemma timers_inv_executeTask taskID env w :
  timers_inv w -> timers_inv (executeTask taskID env w).
Proof.
  intros Hinv. unfold executeTask.
  repeat case_match; simplify_eq/=; try done;
    first [ by apply timers_inv_scheduleTask | by apply timers_inv_removeTaskTimer ].
Qed.

Lemma timers_inv_expire h w :
  timers_inv w -> timers_inv (set_timers (alter expire_timer h) w).
Proof.
  intros Hinv h' tm Hl Hp. simpl in *. destruct (decide (h = h')) as [-> | Hne].
  - rewrite list_lookup_alter_eq in Hl. by destruct (timers w !! h'); simplify_eq/=.
  - rewrite list_lookup_alter_ne in Hl by done. by apply Hinv.
Qed.

Lemma timers_inv_fire h env w : timers_inv w -> timers_inv (fire h env w).
Proof.
  intros Hinv. unfold fire. repeat case_match; try done.
  by apply timers_inv_executeTask, timers_inv_expire.
Qed.

Lemma timers_inv_step w w' : step w w' -> timers_inv w -> timers_inv w'.
Proof.
  destruct 1; intros Hinv;
    eauto using timers_inv_Start, timers_inv_Stop, timers_inv_AddTask,
      timers_inv_StartTask, timers_inv_StopTask, timers_inv_DeleteTask,
      timers_inv_ExecuteTaskOnce, timers_inv_fire.
Qed.

Lemma timers_inv_reachable w : reachable w -> timers_inv w.
Proof.
  induction 1 as [| w w' _ IH Hstep]; [| by eapply timers_inv_step].
  intros h tm Hl. simpl in Hl. by rewrite lookup_nil in Hl.
Qed.


(** *** The pending timers of a task *)

Lemma elem_of_pending_for taskID w h :
  h ∈ pending_for taskID w
  <-> exists tm, timers w !! h = Some tm /\ tm_task tm = taskID /\ tm_state tm = Pending.
Proof.
  unfold pending_for. rewrite list_elem_of_fmap. split.
  - intros ([h' tm] & -> & Hin). apply list_elem_of_filter in Hin as [[Ht Hp] Hin].
    apply elem_of_lookup_imap in Hin as (i & x & Heq & Hl). simplify_eq/=.
    by exists x.
  - intros (tm & Hl & Ht & Hp). exists (h, tm). split; [done |].
    apply list_elem_of_filter. split; [done |].
    apply elem_of_lookup_imap. by exists h, tm.
Qed.

Lemma pending_for_NoDup taskID w : NoDup (pending_for taskID w).
Proof.
  unfold pending_for.
  apply (sublist_NoDup _ (seq 0 (length (timers w)))); [apply NoDup_seq |].
  etrans; [apply fmap_sublist, sublist_filter |].
  rewrite fmap_imap.
  rewrite (imap_ext _ (fun j _ => id j)) by done.
  by rewrite imap_seq_0, list_fmap_id.
Qed.

Lemma pending_for_at_most_one taskID w :
  timers_inv w -> (length (pending_for taskID w) <= 1)%nat.
Proof.
  intros Hinv. pose proof (pending_for_NoDup taskID w) as Hnd.
  assert (forall h, h ∈ pending_for taskID w -> taskTimers w !! taskID = Some h) as Hreg.
  { intros h (tm & Hl & <- & Hp)%elem_of_pending_for. by apply Hinv. }
  destruct (pending_for taskID w) as [|a [|b l]]; simpl; [lia | lia |].
  exfalso. apply NoDup_cons in Hnd as [Hnin _]. apply Hnin.
  assert (a = b) as ->; [| by left].
  pose proof (Hreg a ltac:(by left)). pose proof (Hreg b ltac:(right; by left)).
  congruence.
Qed.

Lemma pending_for_nil taskID w :
  pending_for taskID w = []
  <-> forall h tm, timers w !! h = Some tm -> tm_task tm = taskID ->
                   tm_state tm <> Pending.
Proof.
  split.
  - intros Hnil h tm Hl Ht Hp.
    assert (h ∈ pending_for taskID w) as Hin by (apply elem_of_pending_for; eauto).
    rewrite Hnil in Hin. by apply elem_of_nil in Hin.
  - intros Hno. destruct (pending_for taskID w) as [|a l] eqn:E; [done |].
    assert (a ∈ pending_for taskID w) as Hin by (rewrite E; by left).
    apply elem_of_pending_for in Hin as (tm & Hl & Ht & Hp).
    by destruct (Hno _ _ Hl Ht).
Qed.

End TimerFacts.

(* ===================================================================== *)
(** ** Firings *)
(* ===================================================================== *)

Section FiringFacts.
Import GoInt ErrMsg TaskService TaskSpec.

Implicit Types (w : World) (task : OciCreateTask) (env : Env) (envs : list Env)
  (taskID : string).

Lemma clamp_interval_failed_once task env :
  clamp_interval (failed_once task env) = clamp_interval task.
Proof. reflexivity. Qed.

(** What [executeTask] does once the task, the account and the key are
    found and the task is [running]. *)
Lemma executeTask_resolved task env w :
  tasks w !! ID task = Some task -> Status task = "running" -> resolves task w ->
  executeTask (ID task) env w
  = match CreateInstance env with
    | Some _ =>
        scheduleTask (failed_once task env)
          (db_Save (failed_once task env)
             (logTaskExecution (ID task) "error"
                (extractOCIErrorMessage (CreateInstance env)) (now env) w))
    | None =>
        removeTaskTimer (ID task)
          (db_Save (succeeded task env)
             (logTaskExecution (ID task) "success" "实例创建成功" (now env) w))
    end.
Proof.
  intros Ht Hs [[u Hu] [k Hk]]. unfold executeTask. rewrite Ht.
  rewrite decide_False by (intros H; by apply H).
  rewrite Hu, Hk. unfold failed_once, succeeded.
  destruct (CreateInstance env) as [e|].
  - simpl. rewrite decide_True by exact Hs. done.
  - done.
Qed.

Lemma fire_task_registered task env w h :
  taskTimers w !! ID task = Some h ->
  timers w !! h = Some (mkTimer (ID task) (clamp_interval task) Pending) ->
  fire_task (ID task) env w
  = executeTask (ID task) env (set_timers (alter expire_timer h) w).
Proof. intros Hh Htm. unfold fire_task, fire. by rewrite Hh, Htm. Qed.


Lemma fire_all_cons taskID env envs w :
  fire_all taskID (env :: envs) w = fire_all taskID envs (fire_task taskID env w).
Proof. reflexivity. Qed.

Lemma timers_inv_fire_task taskID env w :
  timers_inv w -> timers_inv (fire_task taskID env w).
Proof.
  intros Hinv. unfold fire_task. destruct (taskTimers w !! taskID); [| done].
  by apply timers_inv_fire.
Qed.

(** One firing whose attempt fails. *)
Lemma fire_task_failure task env w :
  armed task w -> resolves task w -> fails env ->
  armed (failed_once task env) (fire_task (ID task) env w)
  /\ resolves (failed_once task env) (fire_task (ID task) env w)
  /\ task_logs (fire_task (ID task) env w)
     = task_logs w ++ [error_entry (ID task) env].
Proof.
  intros (Ht & Hs & h & Hh & Htm) Hres Hfail.
  rewrite (fire_task_registered _ _ _ _ Hh Htm).
  rewrite executeTask_resolved by done.
  unfold fails in Hfail.
  destruct (CreateInstance env) as [e|] eqn:He; [clear Hfail | done].
  set (task' := failed_once task env).
  set (w1 := db_Save task' _).
  split; [| split].
  - split; [| split; [exact Hs |]].
    + destruct (scheduleTask_db task' w1) as [-> _].
      subst w1. simpl. apply lookup_insert_eq.
    + apply (scheduleTask_registered task' w1).
  - destruct (scheduleTask_db task' w1) as (_ & Hu & Hk & _).
    unfold resolves. rewrite Hu, Hk. exact Hres.
  - destruct (scheduleTask_db task' w1) as (_ & _ & _ & -> & _).
    subst w1. simpl. unfold error_entry. by rewrite He.
Qed.

Lemma foldl_failed_once task envs :
  ID (foldl failed_once task envs) = ID task
  /\ Status (foldl failed_once task envs) = Status task
  /\ clamp_interval (foldl failed_once task envs) = clamp_interval task
  /\ ExecuteCount (foldl failed_once task envs)
     = ExecuteCount task + Z.of_nat (length envs)
  /\ SuccessCount (foldl failed_once task envs) = SuccessCount task
  /\ (forall env, last envs = Some env ->
        LastMessage (foldl failed_once task envs)
        = extractOCIErrorMessage (CreateInstance env)).
Proof.
  revert task. induction envs as [|env envs IH]; intros task.
  - simpl. repeat split; try done. lia.
  - destruct (IH (failed_once task env)) as (H1 & H2 & H3 & H4 & H5 & H6).
    cbn [foldl]. rewrite H1, H2, H3, H4, H5. repeat split; try done.
    + simpl. lia.
    + intros env' Hlast. destruct envs as [|env2 envs]; [| by apply H6].
      by injection Hlast as ->.
Qed.

(** Any number of firings whose attempts fail. *)
Lemma fire_all_failures task envs w :
  armed task w -> resolves task w -> Forall fails envs ->
  armed (foldl failed_once task envs) (fire_all (ID task) envs w)
  /\ resolves (foldl failed_once task envs) (fire_all (ID task) envs w)
  /\ task_logs (fire_all (ID task) envs w)
     = task_logs w ++ (error_entry (ID task) <$> envs).
Proof.
  revert task w. induction envs as [|env envs IH]; intros task w Ha Hr Hf.
  - simpl. by rewrite app_nil_r.
  - apply Forall_cons in Hf as [Hf Hfs].
    destruct (fire_task_failure task env w Ha Hr Hf) as (Ha' & Hr' & Hl').
    destruct (IH (failed_once task env) _ Ha' Hr' Hfs) as (Ha'' & Hr'' & Hl'').
    rewrite fire_all_cons. cbn [foldl].
    change (ID (failed_once task env)) with (ID task) in *.
    split; [done | split; [done |]].
    rewrite Hl'', Hl', <- app_assoc. done.
Qed.

Lemma timers_inv_fire_all taskID envs w :
  timers_inv w -> timers_inv (fire_all taskID envs w).
Proof.
  revert w. induction envs as [|env envs IH]; intros w Hinv; [done |].
  rewrite fire_all_cons. by apply IH, timers_inv_fire_task.
Qed.

Lemma logs_of_app taskID kind w l :
  task_logs w = l ->
  logs_of taskID kind w
  = filter (fun e => log_TaskID e = taskID /\ log_Status e = kind) l.
Proof. by intros <-. Qed.

Lemma filter_error_entries taskID envs :
  filter (fun e => log_TaskID e = taskID /\ log_Status e = "error")
         (error_entry taskID <$> envs)
  = error_entry taskID <$> envs.
Proof.
  induction envs as [|env envs IH]; [done |].
  rewrite fmap_cons, filter_cons_True by done. by rewrite IH.
Qed.

Lemma armed_pending_for task w :
  armed task w -> timers_inv w -> length (pending_for (ID task) w) = 1%nat.
Proof.
  intros (_ & _ & h & Hh & Htm) Hinv.
  pose proof (pending_for_at_most_one (ID task) w Hinv) as Hle.
  assert (h ∈ pending_for (ID task) w) as Hin.
  { apply elem_of_pending_for. by eexists. }
  destruct (pending_for (ID task) w) as [|a l]; [by apply elem_of_nil in Hin |].
  simpl in *. lia.
Qed.



(** *** A task without pending timer stays so while other timers fire *)

Lemma no_pending_scheduleTask taskID task w :
  ID task <> taskID -> pending_for taskID w = [] ->
  pending_for taskID (scheduleTask task w) = [].
Proof.
  rewrite !pending_for_nil. intros Hne Hno h tm Hl Ht Hp.
  rewrite scheduleTask_timers in Hl.
  apply lookup_app_Some in Hl as [Hl | [_ Hl]].
  - destruct (stopped_heap_pending _ _ _ _ Hl Hp) as [Hl' _]. by eapply Hno.
  - destruct (h - _)%nat as [|n]; [| by destruct n]. by simplify_eq/=.
Qed.

Lemma no_pending_removeTaskTimer taskID k w :
  pending_for taskID w = [] -> pending_for taskID (removeTaskTimer k w) = [].
Proof.
  rewrite !pending_for_nil. intros Hno h tm Hl Ht Hp.
  unfold removeTaskTimer in Hl. destruct (taskTimers w !! k); [| by eapply Hno].
  simpl in Hl. destruct (timer_Stop_pending _ _ _ _ Hl Hp) as [_ Hl']. by eapply Hno.
Qed.

Lemma no_pending_expire taskID h w :
  pending_for taskID w = [] ->
  pending_for taskID (set_timers (alter expire_timer h) w) = [].
Proof.
  rewrite !pending_for_nil. intros Hno h' tm Hl Ht Hp. simpl in Hl.
  destruct (decide (h = h')) as [-> | Hne].
  - rewrite list_lookup_alter_eq in Hl. by destruct (timers w !! h'); simplify_eq/=.
  - rewrite list_lookup_alter_ne in Hl by done. by eapply Hno.
Qed.

Lemma task_log_logTaskExecution taskID k status msg t w :
  k <> taskID ->
  task_log taskID (logTaskExecution k status msg t w) = task_log taskID w.
Proof.
  intros Hne. unfold task_log. simpl. rewrite filter_app.
  rewrite (filter_cons_False _ _ []) by (simpl; congruence).
  by rewrite filter_nil, app_nil_r.
Qed.

Lemma tasks_wf_db_Save task w : tasks_wf w -> tasks_wf (db_Save task w).
Proof.
  intros Hwf k t. simpl. destruct (decide (ID task = k)) as [<- | Hne].
  - rewrite lookup_insert_eq. by intros [= <-].
  - rewrite lookup_insert_ne by done. apply Hwf.
Qed.

Lemma tasks_wf_AddTask task w : tasks_wf w -> tasks_wf (AddTask task w).2.
Proof.
  intros Hwf. unfold AddTask. destruct (tasks w !! ID task); [done |]. simpl.
  case_decide; by apply (tasks_wf_db_Save task w).
Qed.

(** The shapes of the world after [executeTask]. *)
Lemma executeTask_cases taskID env w :
  executeTask taskID env w = w
  \/ (exists msg, executeTask taskID env w
                  = logTaskExecution taskID "error" msg (now env) w)
  \/ (exists t0 t' kind msg,
        tasks w !! taskID = Some t0 /\ ID t' = ID t0
        /\ (executeTask taskID env w
            = scheduleTask t'
                (db_Save t' (logTaskExecution taskID kind msg (now env) w))
            \/ executeTask taskID env w
               = removeTaskTimer taskID
                   (db_Save t' (logTaskExecution taskID kind msg (now env) w)))).
Proof.
  unfold executeTask.
  destruct (tasks w !! taskID) as [t0|] eqn:Ht; [| by left].
  case_decide; [by left |].
  destruct (users w !! UserID t0); [| right; left; by eexists].
  destruct (ssh_keys w !! SSHKeyID t0); [| right; left; by eexists].
  right; right.
  destruct (CreateInstance env) as [e|].
  - eexists t0, _, _, _. split; [done |]. split; [| case_decide; [by left | by right]].
    done.
  - eexists t0, _, _, _. split; [done |]. split; [| case_decide; [by left | by right]].
    done.
Qed.

Lemma executeTask_other taskID k env w :
  tasks_wf w -> k <> taskID -> pending_for taskID w = [] ->
  pending_for taskID (executeTask k env w) = []
  /\ task_log taskID (executeTask k env w) = task_log taskID w
  /\ tasks_wf (executeTask k env w).
Proof.
  intros Hwf Hne Hno.
  destruct (executeTask_cases k env w)
    as [-> | [[msg ->] | (t0 & t' & kind & msg & Ht0 & HID & [-> | ->])]].
  - done.
  - split; [done |]. split; [by apply task_log_logTaskExecution | done].
  - pose proof (Hwf _ _ Ht0) as Hk. split; [| split].
    + apply no_pending_scheduleTask; [congruence | done].
    + by apply (task_log_logTaskExecution taskID k kind msg (now env) w).
    + by apply (tasks_wf_db_Save t' w).
  - split; [| split].
    + by apply no_pending_removeTaskTimer.
    + destruct (removeTaskTimer_db k
                  (db_Save t' (logTaskExecution k kind msg (now env) w)))
        as (_ & _ & _ & Hl & _).
      unfold task_log. rewrite Hl.
      by apply (task_log_logTaskExecution taskID k kind msg (now env) w).
    + intros i t. destruct (removeTaskTimer_db k
                  (db_Save t' (logTaskExecution k kind msg (now env) w)))
        as (-> & _).
      by apply (tasks_wf_db_Save t' w).
Qed.

Lemma fire_other taskID h env w :
  tasks_wf w -> pending_for taskID w = [] ->
  pending_for taskID (fire h env w) = []
  /\ task_log taskID (fire h env w) = task_log taskID w
  /\ tasks_wf (fire h env w).
Proof.
  intros Hwf Hno. unfold fire.
  destruct (timers w !! h) as [tm|] eqn:Hl; [| done].
  destruct (tm_state tm) eqn:Hp; [| done | done].
  assert (tm_task tm <> taskID) as Hne.
  { intros Ht. by destruct (proj1 (pending_for_nil taskID w) Hno h tm Hl Ht). }
  apply (executeTask_other taskID (tm_task tm) env
           (set_timers (alter expire_timer h) w)); [done | done |].
  by apply no_pending_expire.
Qed.

Lemma fires_other taskID w w' :
  fires w w' -> tasks_wf w -> pending_for taskID w = [] ->
  pending_for taskID w' = []
  /\ task_log taskID w' = task_log taskID w
  /\ tasks_wf w'.
Proof.
  induction 1 as [| w w' h env tm _ IH Hl Hp]; intros Hwf Hno; [done |].
  destruct (IH Hwf Hno) as (Hno' & Hlog' & Hwf').
  destruct (fire_other taskID h env w' Hwf' Hno') as (? & ? & ?).
  split; [done |]. split; [congruence | done].
Qed.


(** *** Where armed tasks come from, and the shape of the task table *)

Lemma AddTask_armed task w :
  tasks w !! ID task = None -> Status task = "running" ->
  (AddTask task w).1 = None /\ armed task (AddTask task w).2.
Proof.
  intros Hnew Hs. unfold AddTask. rewrite Hnew. simpl.
  rewrite decide_True by done. split; [done |].
  split; [| split; [done |]].
  - destruct (scheduleTask_db task (set_tasks (fun tk => <[ID task := task]> tk) w))
      as [-> _].
    simpl. apply lookup_insert_eq.
  - apply scheduleTask_registered.
Qed.

Lemma StartTask_armed taskID task w :
  tasks w !! taskID = Some task -> ID task = taskID ->
  (StartTask taskID w).1 = None
  /\ armed (with_status task "running") (StartTask taskID w).2.
Proof.
  intros Ht HID. unfold StartTask. rewrite Ht. simpl. split; [done |].
  split; [| split; [done |]].
  - destruct (scheduleTask_db (with_status task "running")
                (db_Save (with_status task "running") w)) as [-> _].
    simpl. apply lookup_insert_eq.
  - apply (scheduleTask_registered (with_status task "running")).
Qed.

Lemma tasks_wf_executeTask taskID env w :
  tasks_wf w -> tasks_wf (executeTask taskID env w).
Proof.
  intros Hwf.
  destruct (executeTask_cases taskID env w)
    as [-> | [[msg ->] | (t0 & t' & kind & msg & _ & _ & [-> | ->])]]; try done.
  - by apply (tasks_wf_db_Save t' w).
  - intros i t.
    destruct (removeTaskTimer_db taskID
                (db_Save t' (logTaskExecution taskID kind msg (now env) w)))
      as (-> & _).
    by apply (tasks_wf_db_Save t' w).
Qed.

Lemma tasks_wf_step w w' : step w w' -> tasks_wf w -> tasks_wf w'.
Proof.
  destruct 1 as [w | w | w task | w taskID | w taskID | w taskID | w taskID
                 | w taskID env | w h env tm Hl Hp]; intros Hwf.
  - unfold Start. destruct (running w); [done |].
    unfold loadAndStartTasks.
    generalize (running_tasks (set_running true w)).
    assert (tasks_wf (set_running true w)) as Hwf' by done.
    revert Hwf'. generalize (set_running true w). clear.
    intros w Hwf ts. revert w Hwf.
    induction ts as [|t ts IH]; intros w Hwf; [done |]. simpl. by apply IH.
  - unfold Stop. by destruct (running w).
  - by apply tasks_wf_AddTask.
  - unfold StartTask. destruct (tasks w !! taskID) as [t|]; [| done].
    by apply (tasks_wf_db_Save (with_status t "running") w).
  - intros k t. unfold StopTask. simpl.
    destruct (removeTaskTimer_db taskID
                (set_tasks (fun tk => alter (fun t => with_status t "stopped") taskID tk) w))
      as (-> & _).
    simpl. destruct (decide (taskID = k)) as [-> | Hne].
    + rewrite lookup_alter_eq. destruct (tasks w !! k) as [t0|] eqn:Ht0; [| done].
      intros [= <-]. by apply (Hwf k t0).
    + rewrite lookup_alter_ne by done. apply Hwf.
  - intros k t. unfold DeleteTask. simpl.
    destruct (removeTaskTimer_db taskID w) as (-> & _).
    intros [_ Hl]%lookup_delete_Some. by apply (Hwf k t).
  - done.
  - unfold ExecuteTaskOnce. repeat case_match; simpl; try done;
      first [ by apply (tasks_wf_db_Save _ w) ].
  - unfold fire. rewrite Hl, Hp.
    by apply (tasks_wf_executeTask (tm_task tm) env (set_timers (alter expire_timer h) w)).
Qed.

(** C3. After [N] firings in a row whose provisioning attempts fail, the
    task is still [running], its execution counter has grown by [N] (it
    is [N] for a task that starts at 0), the log has gained exactly [N]
    entries, all of kind [error] and each with the extracted message of
    its attempt, the last of which is the task's last message; and after
    each of these firings a pending timer with the same interval is
    registered for the task, the only one it has. *)
Theorem failing_firings_keep_running task w envs :
  armed task w -> resolves task w -> timers_inv w -> Forall fails envs ->
  let N := length envs in
  let w' := fire_all (ID task) envs w in
  exists task',
    tasks w' !! ID task = Some task'
    /\ Status task' = "running"
    /\ ExecuteCount task' = ExecuteCount task + Z.of_nat N
    /\ (ExecuteCount task = 0 -> ExecuteCount task' = Z.of_nat N)
    /\ SuccessCount task' = SuccessCount task
    /\ task_logs w' = task_logs w ++ (error_entry (ID task) <$> envs)
    /\ length (logs_of (ID task) "error" w')
       = (length (logs_of (ID task) "error" w) + N)%nat
    /\ (logs_of (ID task) "error" w = [] ->
        length (logs_of (ID task) "error" w') = N)
    /\ (forall env, last envs = Some env ->
          LastMessage task' = extractOCIErrorMessage (CreateInstance env)
          /\ last (task_logs w') = Some (error_entry (ID task) env))
    /\ (forall k, exists h,
          taskTimers (fire_all (ID task) (take k envs) w) !! ID task = Some h
          /\ timers (fire_all (ID task) (take k envs) w) !! h
             = Some (mkTimer (ID task) (clamp_interval task) Pending)
          /\ length (pending_for (ID task) (fire_all (ID task) (take k envs) w))
             = 1%nat).
Proof.
  intros Ha Hr Hinv Hf N w'.
  destruct (fire_all_failures task envs w Ha Hr Hf) as (Ha' & _ & Hlogs).
  destruct (foldl_failed_once task envs) as (HID & HS & HC & HE & HSc & HL).
  exists (foldl failed_once task envs).
  assert (length (logs_of (ID task) "error" w')
          = (length (logs_of (ID task) "error" w) + N)%nat) as Hlen.
  { rewrite (logs_of_app _ _ _ _ Hlogs), filter_app, filter_error_entries.
    by rewrite length_app, length_fmap. }
  destruct Ha' as (Ht' & Hs' & _). rewrite HID in Ht'.
  split; [done |]. split; [done |]. split; [done |].
  split; [intros H0; rewrite HE, H0; lia |]. split; [done |].
  split; [done |]. split; [done |].
  split; [intros H0; by rewrite Hlen, H0 |]. split.
  - intros env Hlast. split; [by apply HL |].
    subst w'. rewrite Hlogs. destruct envs as [|e0 envs] using rev_ind; [done |].
    rewrite last_snoc in Hlast. injection Hlast as ->.
    rewrite fmap_app, app_assoc.
    change (error_entry (ID task) <$> [env]) with [error_entry (ID task) env].
    by rewrite last_snoc.
  - intros k.
    destruct (fire_all_failures task (take k envs) w Ha Hr (Forall_take _ _ _ Hf))
      as (Hak & _ & _).
    pose proof (armed_pending_for _ _ Hak (timers_inv_fire_all _ _ _ Hinv)) as Hp.
    destruct (foldl_failed_once task (take k envs)) as (HIDk & _ & HCk & _).
    destruct Hak as (_ & _ & h & Hh & Htm).
    rewrite HIDk, ?HCk in *. by exists h.
Qed.

Lemma failing_firings_keep_running_witness :
  Forall fails [Samples.env_boom; Samples.env_quota]
  /\ exists task',
       tasks (fire_all "t1" [Samples.env_boom; Samples.env_quota] Samples.world1) !! "t1"
       = Some task'
       /\ Status task' = "running"
       /\ ExecuteCount task' = 2
       /\ LastMessage task' = "quota exceeded"
       /\ length (logs_of "t1" "error"
                    (fire_all "t1" [Samples.env_boom; Samples.env_quota] Samples.world1))
          = 2%nat.
Proof.
  assert (Forall fails [Samples.env_boom; Samples.env_quota]) as Hf.
  { repeat constructor; discriminate. }
  assert (armed Samples.task1 Samples.world1) as Ha.
  { split; [reflexivity |]. split; [reflexivity |]. exists 0%nat. by split. }
  assert (resolves Samples.task1 Samples.world1) as Hr.
  { split; eexists; reflexivity. }
  assert (timers_inv Samples.world1) as Hinv.
  { apply timers_inv_AddTask. intros h tm Hl. by destruct h. }
  split; [exact Hf |].
  destruct (failing_firings_keep_running Samples.task1 Samples.world1
              [Samples.env_boom; Samples.env_quota] Ha Hr Hinv Hf)
    as (task' & H1 & H2 & _ & H4 & _ & _ & _ & H8 & H9 & _).
  exists task'. split; [exact H1 |]. split; [exact H2 |].
  split; [exact (H4 eq_refl) |].
  split; [exact (proj1 (H9 Samples.env_quota eq_refl)) |].
  exact (H8 eq_refl).
Defined.


(** C4. A firing whose provisioning attempt succeeds stores the task as
    [completed] with its success counter one higher, appends a success
    entry to the log, and takes the task's timer out of the table without
    setting a new one: no timer of the task is left to fire, and none
    appears, nor any log entry for the task, however many other timers
    fire afterwards. *)
Theorem successful_firing_completes task env w :
  armed task w -> resolves task w -> timers_inv w -> tasks_wf w ->
  CreateInstance env = None ->
  let w' := fire_task (ID task) env w in
  exists task',
    tasks w' !! ID task = Some task'
    /\ Status task' = "completed"
    /\ SuccessCount task' = SuccessCount task + 1
    /\ ExecuteCount task' = ExecuteCount task + 1
    /\ task_logs w'
       = task_logs w ++ [mkLog (ID task) "success" "实例创建成功" (now env)]
    /\ taskTimers w' !! ID task = None
    /\ length (timers w') = length (timers w)
    /\ pending_for (ID task) w' = []
    /\ forall w'', fires w' w'' ->
         pending_for (ID task) w'' = []
         /\ task_log (ID task) w'' = task_log (ID task) w'.
Proof.
  intros (Ht & Hs & h & Hh & Htm) Hres Hinv Hwf Hok w'.
  assert (w' = removeTaskTimer (ID task)
                 (db_Save (succeeded task env)
                    (logTaskExecution (ID task) "success" "实例创建成功" (now env)
                       (set_timers (alter expire_timer h) w)))) as Hw'.
  { subst w'. rewrite (fire_task_registered _ _ _ _ Hh Htm).
    rewrite executeTask_resolved by done. by rewrite Hok. }
  set (w1 := db_Save _ _) in Hw'.
  assert (timers_inv w1) as Hinv1 by by apply (timers_inv_expire h w).
  destruct (removeTaskTimer_db (ID task) w1) as (Htk & _ & _ & Hlg & _).
  assert (pending_for (ID task) w' = []) as Hno.
  { rewrite Hw'. apply pending_for_nil. intros h' tm' Hl' Ht'.
    by apply (removeTaskTimer_no_pending (ID task) w1 h' tm'). }
  assert (tasks_wf w') as Hwf'.
  { rewrite Hw'. intros k t. rewrite Htk. by apply (tasks_wf_db_Save _ w). }
  exists (succeeded task env). rewrite Hw', Htk, Hlg.
  split; [apply lookup_insert_eq |]. split; [done |]. split; [done |].
  split; [done |]. split; [done |].
  split; [apply removeTaskTimer_unregistered |]. split.
  - unfold removeTaskTimer. destruct (taskTimers w1 !! ID task); simpl.
    + by rewrite timer_Stop_length, length_alter.
    + by rewrite length_alter.
  - rewrite <- Hw'. split; [done |]. intros w'' Hf.
    by destruct (fires_other (ID task) w' w'' Hf Hwf' Hno) as (? & ? & _).
Qed.

Lemma successful_firing_completes_witness :
  CreateInstance Samples.env_ok = None
  /\ exists task',
       tasks (fire_task "t1" Samples.env_ok Samples.world1) !! "t1" = Some task'
       /\ Status task' = "completed"
       /\ SuccessCount task' = 1
       /\ pending_for "t1" (fire_task "t1" Samples.env_ok Samples.world1) = [].
Proof.
  assert (armed Samples.task1 Samples.world1) as Ha.
  { split; [reflexivity |]. split; [reflexivity |]. exists 0%nat. by split. }
  assert (resolves Samples.task1 Samples.world1) as Hr.
  { split; eexists; reflexivity. }
  assert (timers_inv Samples.world1) as Hinv.
  { apply timers_inv_AddTask. intros h tm Hl. by destruct h. }
  assert (tasks_wf Samples.world1) as Hwf.
  { apply tasks_wf_AddTask. intros k t. simpl. by rewrite lookup_empty. }
  split; [reflexivity |].
  destruct (successful_firing_completes Samples.task1 Samples.env_ok Samples.world1
              Ha Hr Hinv Hwf eq_refl)
    as (task' & H1 & H2 & H3 & _ & _ & _ & _ & H8 & _).
  exists task'. split; [exact H1 |]. split; [exact H2 |]. split; [exact H3 |].
  exact H8.
Defined.

(** *** Resolution failures *)

(** A firing that finds no account or no key for a running task writes
    an error entry and returns: the task stays as it is, no timer is
    set, and the timer that fired has expired. *)
Lemma fire_task_unresolved task env w :
  armed task w -> timers_inv w -> ~ resolves task w ->
  let w' := fire_task (ID task) env w in
  tasks w' = tasks w
  /\ (exists msg, task_logs w' = task_logs w ++ [mkLog (ID task) "error" msg (now env)])
  /\ taskTimers w' = taskTimers w
  /\ length (timers w') = length (timers w)
  /\ pending_for (ID task) w' = [].
Proof.
  intros (Ht & Hs & h & Hh & Htm) Hinv Hres w'.
  assert (pending_for (ID task) (set_timers (alter expire_timer h) w) = []) as Hno.
  { apply pending_for_nil. intros h' tm' Hl' Ht' Hp'.
    pose proof (timers_inv_expire h w Hinv h' tm' Hl' Hp') as Hreg. simpl in *.
    rewrite Ht', Hh in Hreg. injection Hreg as <-.
    rewrite list_lookup_alter_eq, Htm in Hl'. by injection Hl' as <-. }
  subst w'. rewrite (fire_task_registered _ _ _ _ Hh Htm).
  unfold executeTask. simpl. rewrite Ht.
  rewrite decide_False by (intros H; by apply H).
  destruct (users w !! UserID task) as [u|] eqn:Hu.
  - destruct (ssh_keys w !! SSHKeyID task) as [k|] eqn:Hk.
    + destruct Hres. unfold resolves. rewrite Hu, Hk. by split.
    + simpl. rewrite length_alter. repeat split; try done. by eexists.
  - simpl. rewrite length_alter. repeat split; try done. by eexists.
Qed.

(** C1 does not hold of the code; on the sample task, with the account
    missing: the firing logs the error, the task is still [running], and
    no timer is left for it, so that it is never attempted again. *)
Theorem unresolved_firing_not_rearmed :
  let w' := fire_task "t1" Samples.env_boom Samples.world_no_user in
  armed Samples.task1 Samples.world_no_user
  /\ users Samples.world_no_user !! UserID Samples.task1 = None
  /\ task_logs w' = [mkLog "t1" "error" "配置不存在: record not found" 1000]
  /\ tasks w' !! "t1" = Some Samples.task1
  /\ Status Samples.task1 = "running"
  /\ timers w' = [mkTimer "t1" (60 * Second) Expired]
  /\ pending_for "t1" w' = []
  /\ fire_task "t1" Samples.env_boom w' = w'.
Proof.
  intros w'.
  split. { split; [reflexivity |]. split; [reflexivity |]. exists 0%nat. by split. }
  repeat split; reflexivity.
Qed.

(** The same with the SSH key missing. *)
Lemma unresolved_key_not_rearmed :
  let w' := fire_task "t1" Samples.env_boom Samples.world_no_key in
  task_logs w' = [mkLog "t1" "error" "SSH密钥不存在: record not found" 1000]
  /\ tasks w' !! "t1" = Some Samples.task1
  /\ timers w' = [mkTimer "t1" (60 * Second) Expired]
  /\ pending_for "t1" w' = [].
Proof. repeat split; reflexivity. Qed.

End FiringFacts.

(* ===================================================================== *)
(** ** One timer per task *)
(* ===================================================================== *)

Section InvariantFacts.
Import GoInt ErrMsg TaskService TaskSpec.

Implicit Types (w : World) (task : OciCreateTask) (tm : Timer) (h : nat).

Lemma timers_inv_atomic w w' : atomic w w' -> timers_inv w -> timers_inv w'.
Proof.
  destruct 1 as [w w' Ht Hh | | | |]; intros Hinv.
  - intros h tm. rewrite Ht, Hh. apply Hinv.
  - by apply timers_inv_scheduleTask.
  - by apply timers_inv_removeTaskTimer.
  - by apply timers_inv_stop_timers.
  - by apply timers_inv_expire.
Qed.

Lemma timers_inv_rtc_atomic w w' : rtc atomic w w' -> timers_inv w -> timers_inv w'.
Proof. induction 1; eauto using timers_inv_atomic. Qed.

Lemma atomic_then_schedule w w1 task :
  taskTimers w1 = taskTimers w -> timers w1 = timers w ->
  rtc atomic w (scheduleTask task w1).
Proof.
  intros Ht Hh. eapply rtc_l; [by apply (atomic_other w w1) |].
  apply rtc_once, atomic_scheduleTask.
Qed.

Lemma atomic_then_remove w w1 taskID :
  taskTimers w1 = taskTimers w -> timers w1 = timers w ->
  rtc atomic w (removeTaskTimer taskID w1).
Proof.
  intros Ht Hh. eapply rtc_l; [by apply (atomic_other w w1) |].
  apply rtc_once, atomic_removeTaskTimer.
Qed.

Lemma foldl_scheduleTask_atomic ts w :
  rtc atomic w (foldl (fun w task => scheduleTask task w) w ts).
Proof.
  revert w. induction ts as [|t ts IH]; intros w; [done |].
  simpl. eapply rtc_l; [apply atomic_scheduleTask | apply IH].
Qed.

Lemma executeTask_atomic taskID env w : rtc atomic w (executeTask taskID env w).
Proof.
  destruct (executeTask_cases taskID env w)
    as [-> | [[msg ->] | (t0 & t' & kind & msg & _ & _ & [-> | ->])]].
  - done.
  - by apply rtc_once, atomic_other.
  - by apply atomic_then_schedule.
  - by apply atomic_then_remove.
Qed.

(** Every step of the service is a sequence of locked steps. *)
Lemma step_atomic w w' : step w w' -> rtc atomic w w'.
Proof.
  destruct 1 as [w | w | w task | w taskID | w taskID | w taskID | w taskID
                 | w taskID env | w h env tm Hl Hp].
  - unfold Start. destruct (running w); [done |].
    eapply rtc_l; [by apply (atomic_other w (set_running true w)) |].
    apply foldl_scheduleTask_atomic.
  - unfold Stop. destruct (running w); [| done]. simpl.
    eapply rtc_l; [by apply (atomic_other w (set_running false w)) |].
    apply rtc_once, atomic_stop_timers.
  - unfold AddTask. destruct (tasks w !! ID task); [done |]. simpl.
    case_decide; [by apply atomic_then_schedule | by apply rtc_once, atomic_other].
  - unfold StartTask. destruct (tasks w !! taskID); [| done]. simpl.
    by apply atomic_then_schedule.
  - unfold StopTask. simpl. by apply atomic_then_remove.
  - unfold DeleteTask. simpl.
    eapply rtc_l; [apply (atomic_removeTaskTimer w taskID) |].
    by apply rtc_once, atomic_other.
  - by apply rtc_once, atomic_other.
  - destruct (ExecuteTaskOnce_timers taskID env w) as [H1 H2].
    by apply rtc_once, atomic_other.
  - unfold fire. rewrite Hl, Hp.
    eapply rtc_l; [by eapply atomic_expire |]. apply executeTask_atomic.
Qed.

(** C6. At every instant of a run of the service, the timers still to
    fire are the ones the table holds, so that a task has at most one;
    every step of the service keeps it so ([Start], [Stop], [AddTask],
    [StartTask], [StopTask], [DeleteTask], the one-shot execution and
    every firing), and so does every interleaving of their locked parts;
    [scheduleTask] stops the timer it replaces, and [removeTaskTimer]
    and [Stop] stop the timers they take out of the table. *)
Theorem one_timer_per_task :
  (forall w, reachable w ->
     timers_inv w
     /\ forall taskID,
          (length (pending_for taskID w) <= 1)%nat
          /\ forall h, h ∈ pending_for taskID w -> taskTimers w !! taskID = Some h)
  /\ (forall w w', timers_inv w -> step w w' -> timers_inv w')
  /\ (forall w w', step w w' -> rtc atomic w w')
  /\ (forall w w', timers_inv w -> rtc atomic w w' ->
        timers_inv w'
        /\ forall taskID, (length (pending_for taskID w') <= 1)%nat)
  /\ (forall task w e tm,
        taskTimers w !! ID task = Some e -> timers w !! e = Some tm ->
        exists tm', timers (scheduleTask task w) !! e = Some tm'
                    /\ tm_state tm' <> Pending)
  /\ (forall taskID w e tm,
        taskTimers w !! taskID = Some e -> timers w !! e = Some tm ->
        taskTimers (removeTaskTimer taskID w) !! taskID = None
        /\ exists tm', timers (removeTaskTimer taskID w) !! e = Some tm'
                       /\ tm_state tm' <> Pending)
  /\ (forall w k e tm,
        running w = true -> taskTimers w !! k = Some e -> timers w !! e = Some tm ->
        taskTimers (Stop w) = ∅
        /\ exists tm', timers (Stop w) !! e = Some tm' /\ tm_state tm' <> Pending).
Proof.
  split; [| split; [| split; [| split; [| split; [| split]]]]].
  - intros w Hr. pose proof (timers_inv_reachable w Hr) as Hinv.
    split; [done |]. intros taskID. split; [by apply pending_for_at_most_one |].
    intros h (tm & Hl & <- & Hp)%elem_of_pending_for. by apply Hinv.
  - intros w w' Hinv Hs. by eapply timers_inv_step.
  - apply step_atomic.
  - intros w w' Hinv Hs. pose proof (timers_inv_rtc_atomic w w' Hs Hinv) as Hinv'.
    split; [done |]. intros taskID. by apply pending_for_at_most_one.
  - intros task w e tm He Htm. exists (stop_timer tm).
    split; [by apply scheduleTask_stops_existing | apply stop_timer_not_pending].
  - intros taskID w e tm He Htm.
    destruct (removeTaskTimer_stops taskID w e tm He Htm) as [H1 H2].
    split; [done |]. exists (stop_timer tm). split; [done | apply stop_timer_not_pending].
  - intros w k e tm Hr He Htm.
    destruct (Stop_stops w k e tm Hr He Htm) as [H1 H2].
    split; [done |]. exists (stop_timer tm). split; [done | apply stop_timer_not_pending].
Qed.


Lemma one_timer_per_task_witness :
  reachable (StartTask "t1" Samples.world1).2
  /\ (length (pending_for "t1" (StartTask "t1" Samples.world1).2) <= 1)%nat
  /\ timers_inv (fire 1 Samples.env_boom (StartTask "t1" Samples.world1).2)
  /\ (exists tm', timers (scheduleTask Samples.task1 Samples.world1) !! 0%nat = Some tm'
                  /\ tm_state tm' <> Pending)
  /\ taskTimers (removeTaskTimer "t1" Samples.world1) !! "t1" = None
  /\ taskTimers (Stop (Start Samples.world1)) = ∅.
Proof.
  assert (reachable (StartTask "t1" Samples.world1).2) as Hr.
  { eapply reach_step; [| apply step_StartTask].
    eapply reach_step; [apply reach_init | apply step_AddTask]. }
  destruct one_timer_per_task as (H1 & H2 & _ & _ & H3 & H4 & H5).
  destruct (H1 _ Hr) as [Hinv Hone].
  split; [exact Hr |]. split; [exact (proj1 (Hone "t1")) |].
  split.
  { apply (H2 (StartTask "t1" Samples.world1).2); [exact Hinv |].
    by eapply (step_fire _ 1 Samples.env_boom). }
  split; [exact (H3 Samples.task1 Samples.world1 0%nat _ eq_refl eq_refl) |].
  split; [exact (proj1 (H4 "t1" Samples.world1 0%nat _ eq_refl eq_refl)) |].
  exact (proj1 (H5 (Start Samples.world1) "t1" 1%nat _ eq_refl eq_refl eq_refl)).
Defined.

End InvariantFacts.

(* ===================================================================== *)
(** ** The one-shot execution and the interval of a timer *)
(* ===================================================================== *)

Section OneShotFacts.
Import GoInt ErrMsg TaskService TaskSpec.

Implicit Types (w : World) (task : OciCreateTask) (env : Env).

(** C5. [ExecuteTaskOnce] on a task whose account and key are found: when
    the attempt succeeds it returns [nil] and stores the task as
    [completed] with the success counter one higher; when the attempt
    fails it returns the extracted message as its error and stores the
    task as [error], with that message and the success counter as it
    was; either way the timer table and the timers are left as they
    were. *)
Theorem ExecuteTaskOnce_outcome task env w :
  tasks w !! ID task = Some task -> resolves task w ->
  let r := ExecuteTaskOnce (ID task) env w in
  taskTimers r.2 = taskTimers w
  /\ timers r.2 = timers w
  /\ (CreateInstance env = None ->
      r.1 = None
      /\ exists task', tasks r.2 !! ID task = Some task'
           /\ Status task' = "completed"
           /\ SuccessCount task' = SuccessCount task + 1)
  /\ (forall e, CreateInstance env = Some e ->
      r.1 = Some (extractOCIErrorMessage (Some e))
      /\ exists task', tasks r.2 !! ID task = Some task'
           /\ Status task' = "error"
           /\ LastMessage task' = extractOCIErrorMessage (Some e)
           /\ SuccessCount task' = SuccessCount task).
Proof.
  intros Ht [[u Hu] [k Hk]] r.
  destruct (ExecuteTaskOnce_timers (ID task) env w) as [H1 H2].
  split; [done |]. split; [done |].
  subst r. unfold ExecuteTaskOnce. rewrite Ht, Hu, Hk. split.
  - intros ->. simpl. split; [done |]. eexists. rewrite lookup_insert_eq. done.
  - intros e ->. simpl. split; [done |]. eexists. rewrite lookup_insert_eq. done.
Qed.

Lemma ExecuteTaskOnce_outcome_witness :
  (ExecuteTaskOnce "t1" Samples.env_ok Samples.world1).1 = None
  /\ (ExecuteTaskOnce "t1" Samples.env_quota Samples.world1).1 = Some "quota exceeded"
  /\ timers (ExecuteTaskOnce "t1" Samples.env_quota Samples.world1).2
     = timers Samples.world1.
Proof.
  assert (tasks Samples.world1 !! ID Samples.task1 = Some Samples.task1) as Ht
    by reflexivity.
  assert (resolves Samples.task1 Samples.world1) as Hr
    by (split; eexists; reflexivity).
  split; [| split].
  - exact (proj1 (proj1 (proj2 (proj2
      (ExecuteTaskOnce_outcome Samples.task1 Samples.env_ok Samples.world1 Ht Hr)))
      eq_refl)).
  - exact (proj1 (proj2 (proj2 (proj2
      (ExecuteTaskOnce_outcome Samples.task1 Samples.env_quota Samples.world1 Ht Hr)))
      _ eq_refl)).
  - exact (proj1 (proj2
      (ExecuteTaskOnce_outcome Samples.task1 Samples.env_quota Samples.world1 Ht Hr))).
Defined.

(** *** The interval *)

Lemma wrap64_id z : in_range z -> wrap64 z = z.
Proof.
  unfold in_range, min_int, max_int, wrap64. intros H.
  rewrite Z.mod_small; lia.
Qed.

Lemma wrap64_range z : in_range (wrap64 z).
Proof.
  unfold in_range, min_int, max_int, wrap64.
  pose proof (Z.mod_pos_bound (z + 2 ^ 63) (2 ^ 64) ltac:(lia)). lia.
Qed.

Lemma seconds_exact n :
  -9223372036 <= n <= 9223372036 -> seconds n = n * Second.
Proof.
  intros H. unfold seconds, Second.
  rewrite (wrap64_id n) by (unfold in_range, min_int, max_int; lia).
  apply wrap64_id. unfold in_range, min_int, max_int. lia.
Qed.

(** The claim C7 as it is worded does not hold for every task: a
    configured interval of 9223372037 seconds, which is more than 10
    seconds, overflows the 64-bit count of nanoseconds of a
    [time.Duration], and the timer is set to 10 seconds. *)
Lemma interval_overflow_counterexample :
  ~ (forall task,
       (10 <= Interval task -> clamp_interval task = Interval task * Second)
       /\ (Interval task < 10 -> clamp_interval task = 10 * Second)).
Proof.
  intros H.
  destruct (H (mkTask "t1" "u1" "k1" 9223372037 "running" 0 0 None "")) as [H1 _].
  specialize (H1 ltac:(simpl; lia)). vm_compute in H1. discriminate H1.
Qed.

(** C7, amended. The interval of the timer [scheduleTask] registers is
    never below 10 seconds, whatever the task; it is the configured
    number of seconds when that is at least 10 and at most 9223372036
    (the seconds a [time.Duration] can hold), and 10 seconds when the
    configured number is below 10 (and not below -9223372036); a task
    configured with 1 second is scheduled at 10 seconds. *)
Theorem scheduled_interval_floor task :
  10 * Second <= clamp_interval task
  /\ (10 <= Interval task <= 9223372036 ->
      clamp_interval task = Interval task * Second)
  /\ (-9223372036 <= Interval task < 10 -> clamp_interval task = 10 * Second)
  /\ (Interval task = 1 -> clamp_interval task = 10 * Second)
  /\ forall w, exists h,
       taskTimers (scheduleTask task w) !! ID task = Some h
       /\ timers (scheduleTask task w) !! h
          = Some (mkTimer (ID task) (clamp_interval task) Pending).
Proof.
  assert (forall n, -9223372036 <= n < 10 ->
            (if seconds n <? 10 * Second then 10 * Second else seconds n)
            = 10 * Second) as Hlow.
  { intros n Hn. rewrite seconds_exact by lia.
    destruct (Z.ltb_spec (n * Second) (10 * Second)); [done |].
    unfold Second in *. lia. }
  split; [| split; [| split; [| split]]].
  - unfold clamp_interval.
    destruct (Z.ltb_spec (seconds (Interval task)) (10 * Second)); lia.
  - intros Hn. unfold clamp_interval. rewrite seconds_exact by lia.
    destruct (Z.ltb_spec (Interval task * Second) (10 * Second)); [| done].
    unfold Second in *. lia.
  - intros Hn. by apply Hlow.
  - intros Hn. apply Hlow. lia.
  - intros w. apply scheduleTask_registered.
Qed.

Lemma scheduled_interval_floor_witness :
  clamp_interval (mkTask "t1" "u1" "k1" 1 "running" 0 0 None "") = 10 * Second
  /\ clamp_interval Samples.task1 = 60 * Second.
Proof.
  split.
  - exact (proj1 (proj2 (proj2 (proj2
      (scheduled_interval_floor (mkTask "t1" "u1" "k1" 1 "running" 0 0 None "")))))
      eq_refl).
  - apply (proj1 (proj2 (scheduled_interval_floor Samples.task1))).
    simpl. lia.
Defined.

End OneShotFacts.

(* ===================================================================== *)
(** ** The polling loop *)
(* ===================================================================== *)

Section PollFacts.
Import GoInt TelegramService BotSpec.

Variable report : Snapshot -> string.

Implicit Types (s : Service) (updates : list TelegramUpdate) (offset : Z)
  (resps : list (option (list TelegramUpdate))).

Lemma process_updates_foldl s updates offset calls :
  foldl (fun '(offset, calls) update =>
           (wrap64 (UpdateID update + 1), calls ++ handleUpdate report s update))
        (offset, calls) updates
  = (next_offset offset updates,
     calls ++ concat (handleUpdate report s <$> updates)).
Proof.
  revert offset calls. induction updates as [|u updates IH]; intros offset calls.
  - simpl. by rewrite app_nil_r.
  - cbn [foldl]. rewrite IH. unfold next_offset. simpl. by rewrite app_assoc.
Qed.

Lemma process_updates_eq s offset updates :
  process_updates report s offset updates
  = (next_offset offset updates, concat (handleUpdate report s <$> updates)).
Proof. unfold process_updates. by rewrite process_updates_foldl. Qed.

Lemma next_offset_snoc offset updates u :
  next_offset offset (updates ++ [u]) = wrap64 (UpdateID u + 1).
Proof. unfold next_offset. by rewrite foldl_app. Qed.

Lemma wrap64_succ i : min_int <= i < max_int -> wrap64 (i + 1) = i + 1.
Proof.
  intros H. unfold wrap64. unfold min_int, max_int in H.
  rewrite Z.mod_small; lia.
Qed.

Lemma next_offset_last offset updates u :
  last updates = Some u -> min_int <= UpdateID u < max_int ->
  next_offset offset updates = UpdateID u + 1.
Proof.
  intros (l & ->)%last_Some Hu. by rewrite next_offset_snoc, wrap64_succ.
Qed.

(** After an ordered batch the offset is above every identifier of the
    batch. *)
Lemma next_offset_above offset updates :
  ordered updates -> Forall (fun i => i < next_offset offset updates) (ids updates).
Proof.
  intros [Hs Hr]. destruct updates as [|u0 updates] using rev_ind; [constructor |].
  clear IHupdates. rewrite next_offset_snoc. unfold ids in *.
  rewrite fmap_app in *. apply Forall_app in Hr as [_ Hr].
  apply Forall_cons in Hr as [Hu _]. rewrite wrap64_succ by done.
  apply Forall_app. split.
  - apply Forall_forall. intros i Hi.
    pose proof (StronglySorted_app_1_elem_of Z.lt _ _ i (UpdateID u0) Hs Hi
                  ltac:(by left)). lia.
  - repeat constructor. lia.
Qed.

Lemma next_offset_mono offset updates :
  ordered updates -> Forall (fun i => offset <= i) (ids updates) ->
  offset <= next_offset offset updates.
Proof.
  intros Ho Hge. destruct updates as [|u updates]; [done |].
  pose proof (next_offset_above offset _ Ho) as Ha.
  apply Forall_cons in Ha as [Ha _]. apply Forall_cons in Hge as [Hge _]. lia.
Qed.

(** Under the transport's contract the identifiers the loop handles grow
    strictly, and none is below the offset the loop starts from. *)
Lemma processed_sorted offset resps :
  transport_ok offset resps ->
  StronglySorted Z.lt (processed resps)
  /\ Forall (fun i => offset <= i) (processed resps).
Proof.
  revert offset. induction resps as [|[updates|] resps IH]; intros offset Hok.
  - split; constructor.
  - destruct Hok as (Ho & Hge & Hok). destruct (IH _ Hok) as [Hs Hf].
    pose proof (next_offset_above offset _ Ho) as Ha.
    pose proof (next_offset_mono offset _ Ho Hge) as Hm.
    unfold processed. cbn [fmap list_fmap concat]. fold (processed resps). split.
    + apply StronglySorted_app_2; [| apply Ho | done].
      intros x1 x2 H1 H2.
      pose proof (proj1 (Forall_forall _ _) Ha x1 H1).
      pose proof (proj1 (Forall_forall _ _) Hf x2 H2). simpl in *. lia.
    + apply Forall_app. split; [done |].
      eapply Forall_impl; [exact Hf |]. simpl. intros; lia.
  - apply (IH _ Hok).
Qed.


Lemma poll_loop_offset s offset resps :
  (poll_loop report s offset resps).1 = loop_offset offset resps.
Proof.
  revert offset. induction resps as [|[updates|] resps IH]; intros offset; [done | |].
  - cbn [poll_loop poll_cycle loop_offset]. rewrite process_updates_eq.
    specialize (IH (next_offset offset updates)).
    by destruct (poll_loop report s (next_offset offset updates) resps).
  - cbn [poll_loop poll_cycle loop_offset]. specialize (IH offset).
    by destruct (poll_loop report s offset resps).
Qed.

Lemma loop_offset_above offset resps :
  transport_ok offset resps ->
  offset <= loop_offset offset resps
  /\ Forall (fun i => i < loop_offset offset resps) (processed resps).
Proof.
  revert offset. induction resps as [|[updates|] resps IH]; intros offset Hok.
  - split; [simpl; lia | constructor].
  - destruct Hok as (Ho & Hge & Hok). destruct (IH _ Hok) as [Hm Hf].
    pose proof (next_offset_above offset _ Ho) as Ha.
    pose proof (next_offset_mono offset _ Ho Hge) as Hm'.
    cbn [loop_offset]. split; [lia |].
    unfold processed. cbn [fmap list_fmap concat]. fold (processed resps).
    apply Forall_app. split; [| done].
    eapply Forall_impl; [exact Ha |]. simpl. intros; lia.
  - apply (IH _ Hok).
Qed.

Lemma StronglySorted_lt_NoDup (l : list Z) : StronglySorted Z.lt l -> NoDup l.
Proof.
  induction 1 as [| x l _ IH Hx]; constructor; [| done].
  intros Hin. pose proof (proj1 (Forall_forall _ _) Hx x Hin). lia.
Qed.

(** C8, amended. One turn of the loop asks for the updates from its
    offset on and handles those of the batch in arrival order; after a
    batch the offset is the identifier of the last update plus one (for an
    identifier below the largest [int]), and when the identifiers of the
    batch grow in arrival order it is above each of them.  While the
    transport returns such batches and nothing below the offset it is
    asked for, the identifiers the loop handles grow strictly, so that none
    is handled twice, and the offset ends above all of them.  A transport
    error leaves the offset as it is.  For the identifiers 5, 6, 7 the
    offset after the turn is 8. *)
Theorem poll_offset_advances s offset updates :
  (poll_cycle report s offset (Some updates)).2
  = getUpdates offset :: concat (handleUpdate report s <$> updates)
  /\ (forall u, last updates = Some u -> min_int <= UpdateID u < max_int ->
        (poll_cycle report s offset (Some updates)).1 = UpdateID u + 1)
  /\ (ordered updates ->
      Forall (fun u => UpdateID u < (poll_cycle report s offset (Some updates)).1)
             updates)
  /\ poll_cycle report s offset None = (offset, [getUpdates offset])
  /\ (forall resps, transport_ok 0 resps ->
        StronglySorted Z.lt (processed resps)
        /\ NoDup (processed resps)
        /\ Forall (fun i => i < (pollUpdates report s resps).1) (processed resps))
  /\ (poll_cycle report s offset (Some [update 5; update 6; update 7])).1 = 8.
Proof.
  unfold poll_cycle. rewrite !process_updates_eq. cbn [fst snd].
  split; [done |]. split; [intros u Hl Hu; by apply next_offset_last |].
  split.
  { intros Ho. pose proof (next_offset_above offset _ Ho) as Ha.
    unfold ids in Ha. by apply Forall_fmap in Ha. }
  split; [done |]. split; [| done].
  intros resps Hok. destruct (processed_sorted 0 resps Hok) as [Hs _].
  split; [done |]. split; [by apply StronglySorted_lt_NoDup |].
  unfold pollUpdates. rewrite poll_loop_offset.
  by destruct (loop_offset_above 0 resps Hok).
Qed.

End PollFacts.

Section PollExamples.
Import GoInt TelegramService BotSpec.

(** The claim C8 as it is worded does not hold of every batch: for the
    identifiers 7, 5 the offset after the turn is 6, which is not above
    7. *)
Lemma unordered_batch_counterexample :
  ~ (forall (report : Snapshot -> string) s offset updates u,
       last updates = Some u ->
       (poll_cycle report s offset (Some updates)).1 = UpdateID u + 1
       /\ Forall (fun v => UpdateID v < (poll_cycle report s offset (Some updates)).1)
                 updates).
Proof.
  intros H.
  destruct (H (fun _ => EmptyString) service42 0 [update 7; update 5] (update 5) eq_refl)
    as [_ Hall].
  apply Forall_cons in Hall as [H7 _]. vm_compute in H7. discriminate H7.
Qed.

Lemma poll_offset_advances_witness :
  ordered [update 5; update 6; update 7]
  /\ transport_ok 0 [Some [update 5; update 6; update 7]; None; Some [update 8]]
  /\ Forall (fun u => UpdateID u < 8) [update 5; update 6; update 7]
  /\ NoDup (processed [Some [update 5; update 6; update 7]; None; Some [update 8]])
  /\ (poll_cycle (fun _ => EmptyString) service42 0 (Some [update 5; update 6; update 7])).1
     = 8.
Proof.
  assert (forall i, 0 <= i < 100 -> min_int <= i < max_int) as Hint.
  { unfold min_int, max_int. lia. }
  assert (ordered [update 5; update 6; update 7]) as Ho.
  { split; repeat constructor; try lia; by apply Hint. }
  assert (transport_ok 0 [Some [update 5; update 6; update 7]; None; Some [update 8]])
    as Hok.
  { split; [exact Ho |]. split; [repeat constructor; simpl; lia |].
    split; [split; repeat constructor; by apply Hint |].
    split; [repeat constructor; vm_compute; discriminate | exact I]. }
  pose proof (poll_offset_advances (fun _ => EmptyString) service42 0
                [update 5; update 6; update 7]) as (_ & _ & H3 & _ & H5 & H6).
  split; [exact Ho |]. split; [exact Hok |].
  split; [exact (H3 Ho) |].
  split; [exact (proj1 (proj2 (H5 _ Hok))) | exact H6].
Defined.

End PollExamples.

(* ===================================================================== *)
(** ** Authorization of the updates *)
(* ===================================================================== *)

Section AuthFacts.
Import TelegramService BotSpec.

Variable report : Snapshot -> string.

Implicit Types (s : Service) (u : TelegramUpdate) (m : Message) (c : CallbackQuery).

Lemma handleStartCommand_no_dispatch chat :
  Forall (fun call => is_dispatch call = false) (handleStartCommand chat).
Proof. by repeat constructor. Qed.

Lemma handle_message_no_dispatch s (om : option Message) :
  Forall (fun call => is_dispatch call = false) (handle_message s om).1.
Proof.
  unfold handle_message. destruct om as [m|]; [| constructor].
  repeat case_decide; simpl; by repeat constructor.
Qed.

(** A text message from another chat: the rejection is sent to that chat
    and [handleUpdate] returns, whatever else the update holds. *)
Lemma handleUpdate_message_rejected s u m :
  update_Message u = Some m -> message_unauthorized s m ->
  handleUpdate report s u = [sendMessage (fmt_d (Chat_ID m)) rejection None].
Proof.
  intros Hm Hna. unfold handleUpdate, handle_message. rewrite Hm.
  by rewrite decide_True.
Qed.

(** A button pressed by another user, in an update without text message:
    the callback query is answered and nothing else is done. *)
Lemma handleUpdate_callback_ignored s u c :
  update_Message u = None -> update_CallbackQuery u = Some c ->
  callback_unauthorized s c ->
  handleUpdate report s u = [answerCallbackQuery (cb_ID c)].
Proof.
  intros Hm Hc Hna. unfold handleUpdate, handle_message, handle_callback_query.
  rewrite Hm, Hc. simpl. by rewrite decide_True.
Qed.

(** C9. Handling an update of which the text message comes from another
    chat than the configured one, or the button press from another user,
    calls no report function, edits and deletes nothing.  A text message
    from another chat gets the fixed rejection as the only reply; a
    button press by another user is answered at the transport level, and
    that is all. *)
Theorem unauthorized_never_dispatched s u :
  (unauthorized s u ->
   Forall (fun call => is_dispatch call = false) (handleUpdate report s u)
   /\ Forall (fun call => is_render call = false) (handleUpdate report s u))
  /\ (forall m, update_Message u = Some m -> message_unauthorized s m ->
        handleUpdate report s u = [sendMessage (fmt_d (Chat_ID m)) rejection None])
  /\ (forall c, update_Message u = None -> update_CallbackQuery u = Some c ->
        callback_unauthorized s c ->
        handleUpdate report s u = [answerCallbackQuery (cb_ID c)]).
Proof.
  split; [| split].
  - intros Hna.
    assert (Forall (fun call => is_dispatch call = false) (handleUpdate report s u))
      as Hd.
    { destruct Hna as [(m & Hm & Hna) | (c & Hc & Hna)].
      - rewrite (handleUpdate_message_rejected s u m Hm Hna). by repeat constructor.
      - unfold handleUpdate.
        pose proof (handle_message_no_dispatch s (update_Message u)) as Hmsg.
        destruct (handle_message s (update_Message u)) as [calls [|]]; [| done].
        apply Forall_app. split; [done |].
        unfold handle_callback_query. rewrite Hc.
        rewrite decide_True by done. by repeat constructor. }
    split; [done |]. eapply Forall_impl; [exact Hd |].
    intros call. by destruct call.
  - intros m. apply handleUpdate_message_rejected.
  - intros c. apply handleUpdate_callback_ignored.
Qed.

End AuthFacts.

Section AuthExamples.
Import TelegramService BotSpec.

Lemma unauthorized_never_dispatched_witness :
  handleUpdate (fun _ => EmptyString) service42
    (mkUpdate 1 (Some (mkMessage 10 77 77 "/start")) None)
  = [sendMessage "77" rejection None]
  /\ handleUpdate (fun _ => EmptyString) service42
       (mkUpdate 2 None (Some (mkCallback "cb1" 77 10 42 "check_alive")))
     = [answerCallbackQuery "cb1"]
  /\ Forall (fun call => is_render call = false)
       (handleUpdate (fun _ => EmptyString) service42
          (mkUpdate 3 (Some (mkMessage 10 42 42 "/start"))
                    (Some (mkCallback "cb1" 77 10 42 "check_alive")))).
Proof.
  assert (message_unauthorized service42 (mkMessage 10 77 77 "/start")) as Hm
    by (vm_compute; discriminate).
  assert (callback_unauthorized service42 (mkCallback "cb1" 77 10 42 "check_alive"))
    as Hc by (vm_compute; discriminate).
  split; [| split].
  - exact (proj1 (proj2 (unauthorized_never_dispatched (fun _ => EmptyString) service42
                           (mkUpdate 1 (Some (mkMessage 10 77 77 "/start")) None)))
             _ eq_refl Hm).
  - exact (proj2 (proj2 (unauthorized_never_dispatched (fun _ => EmptyString) service42
              (mkUpdate 2 None (Some (mkCallback "cb1" 77 10 42 "check_alive")))))
             _ eq_refl eq_refl Hc).
  - apply (proj1 (unauthorized_never_dispatched (fun _ => EmptyString) service42
              (mkUpdate 3 (Some (mkMessage 10 42 42 "/start"))
                        (Some (mkCallback "cb1" 77 10 42 "check_alive"))))).
    right. eexists. split; [reflexivity | exact Hc].
Defined.

(** The authorized user's button press is dispatched. *)
Example authorized_dispatched :
  handleUpdate (fun _ => "report"%string) service42
    (mkUpdate 2 None (Some (mkCallback "cb1" 42 10 42 "check_alive")))
  = [answerCallbackQuery "cb1"; render checkAlive;
     editMessageText "42" 10 "report" (Some getMainKeyboard)].
Proof. reflexivity. Qed.

End AuthExamples.

(* ===================================================================== *)
(** ** The masked token *)
(* ===================================================================== *)

Section MaskFacts.
Import TelegramService TelegramController.

Implicit Types (s : Service) (req : UpdateTelegramConfigRequest).

Lemma UpdateConfig_botToken token chat en s :
  botToken (TelegramService.UpdateConfig token chat en s) = token
  /\ settings (TelegramService.UpdateConfig token chat en s) !! SettingKeyTgBotToken
     = Some token.
Proof.
  unfold TelegramService.UpdateConfig, StartBot, StopBot.
  repeat case_match; simpl; (split; [done |]);
    rewrite lookup_insert_ne by done; rewrite lookup_insert_ne by done;
    apply lookup_insert_eq.
Qed.

(** The token is kept when the request leaves the field empty, or holds
    more than four characters of which the last four are ["****"]. *)
Lemma UpdateConfig_keeps_token req s :
  req_BotToken req = EmptyString
  \/ ((4 < String.length (req_BotToken req))%nat
      /\ slice_from (String.length (req_BotToken req) - 4) (req_BotToken req)
         = "****"%string) ->
  botToken (UpdateConfig req s) = botToken s.
Proof.
  intros H. unfold UpdateConfig. simpl.
  destruct (UpdateConfig_botToken
              (effective_token (botToken s) (req_BotToken req))
              (req_ChatID req) (req_Enabled req) s) as [-> _].
  unfold effective_token. destruct H as [-> | [Hlen Hsuf]]; [done |].
  rewrite Hsuf. apply Nat.ltb_lt in Hlen. rewrite Hlen.
  by rewrite orb_true_r.
Qed.

(** C10 does not hold of the code.  A stored token of at most ten
    characters is shown as ["****"]; sent back, this mask ends in
    ["****"] but is not longer than four characters, so it is stored as
    the token. *)
Theorem short_mask_overwrites_token :
  let s := mkService "abc" "42" true false ∅ in
  let req := mkUpdateRequest (resp_BotToken (GetConfig s)) "42" true in
  resp_BotToken (GetConfig s) = "****"%string
  /\ botToken (UpdateConfig req s) = "****"%string
  /\ settings (UpdateConfig req s) !! SettingKeyTgBotToken = Some "****"%string
  /\ botToken (UpdateConfig req s) <> botToken s.
Proof. repeat split; [reflexivity .. | discriminate]. Qed.

(** The mask of a longer token ends in the last four characters of the
    token: sent back as it was read, it is stored as well. *)
Lemma long_mask_overwrites_token :
  let s := mkService "123456:ABCDEFGHIJKL" "42" true false ∅ in
  let req := mkUpdateRequest (resp_BotToken (GetConfig s)) "42" true in
  resp_BotToken (GetConfig s) = "123456****IJKL"%string
  /\ botToken (UpdateConfig req s) = "123456****IJKL"%string.
Proof. split; reflexivity. Qed.

End MaskFacts.

(* ===================================================================== *)
(** ** Further properties of the scheduler *)
(* ===================================================================== *)

Section SchedFacts.
Import GoInt ErrMsg TaskService TaskSpec SchedSpec.

Implicit Types (w : World) (task : OciCreateTask) (tm : Timer) (h : nat)
  (taskID : string) (env : Env).

(** *** The table points to timers of the right task *)

Lemma alter_keeps_task (f : Timer -> Timer) e (heap : list Timer) h tm :
  (forall x, tm_task (f x) = tm_task x) -> heap !! h = Some tm ->
  exists tm', alter f e heap !! h = Some tm' /\ tm_task tm' = tm_task tm.
Proof.
  intros Hf Hl. destruct (decide (e = h)) as [-> | Hne].
  - rewrite list_lookup_alter_eq, Hl. simpl. eauto.
  - rewrite list_lookup_alter_ne by done. eauto.
Qed.

Lemma stopped_heap_keeps_task task w h tm :
  timers w !! h = Some tm ->
  exists tm', stopped_heap task w !! h = Some tm' /\ tm_task tm' = tm_task tm.
Proof.
  intros Hl. unfold stopped_heap. destruct (taskTimers w !! ID task); [| eauto].
  by apply alter_keeps_task; [apply stop_timer_task |].
Qed.

Lemma table_wf_scheduleTask task w : table_wf w -> table_wf (scheduleTask task w).
Proof.
  intros Hwf k h. rewrite scheduleTask_taskTimers, scheduleTask_timers.
  destruct (decide (ID task = k)) as [<- | Hne].
  - rewrite lookup_insert_eq. intros [= <-].
    rewrite <- (stopped_heap_length task w), list_lookup_middle by done. eauto.
  - rewrite lookup_insert_ne by done. intros Hk.
    destruct (Hwf _ _ Hk) as (tm & Hl & Ht).
    destruct (stopped_heap_keeps_task task w h tm Hl) as (tm' & Hl' & Ht').
    exists tm'. split; [by apply lookup_app_l_Some | congruence].
Qed.

Lemma table_wf_removeTaskTimer taskID w :
  table_wf w -> table_wf (removeTaskTimer taskID w).
Proof.
  intros Hwf. unfold removeTaskTimer.
  destruct (taskTimers w !! taskID) as [e|]; [| done].
  intros k h. simpl. intros [_ Hk]%lookup_delete_Some.
  destruct (Hwf _ _ Hk) as (tm & Hl & Ht).
  destruct (alter_keeps_task stop_timer e (timers w) h tm stop_timer_task Hl)
    as (tm' & Hl' & Ht').
  exists tm'. split; [done | congruence].
Qed.

Lemma table_wf_atomic w w' : atomic w w' -> table_wf w -> table_wf w'.
Proof.
  destruct 1 as [w w' Ht Hh | | | | w e tm0 _ _]; intros Hwf.
  - intros k h. rewrite Ht, Hh. apply Hwf.
  - by apply table_wf_scheduleTask.
  - by apply table_wf_removeTaskTimer.
  - intros k h. unfold stop_timers. simpl. by rewrite lookup_empty.
  - intros k h Hk. simpl in *. destruct (Hwf _ _ Hk) as (tm & Hl & Ht).
    destruct (alter_keeps_task expire_timer e (timers w) h tm (fun _ => eq_refl) Hl)
      as (tm' & Hl' & Ht').
    exists tm'. split; [done | congruence].
Qed.

Lemma table_wf_step w w' : step w w' -> table_wf w -> table_wf w'.
Proof.
  intros Hs%step_atomic. induction Hs; eauto using table_wf_atomic.
Qed.

Lemma sched_inv_step w w' : step w w' -> sched_inv w -> sched_inv w'.
Proof.
  intros Hs (H1 & H2 & H3).
  split; [by eapply timers_inv_step |].
  split; [by eapply table_wf_step | by eapply tasks_wf_step].
Qed.

Lemma sched_inv_run w : run w -> sched_inv w.
Proof.
  induction 1 as [tk us ks lg Hwf | w w' _ IH Hs]; [| by eapply sched_inv_step].
  split; [| split; [| done]].
  - intros h tm Hl. simpl in Hl. by rewrite lookup_nil in Hl.
  - intros k h Hk. simpl in Hk. by rewrite lookup_empty in Hk.
Qed.


(** *** Start *)

Lemma armed_scheduleTask task w :
  tasks w !! ID task = Some task -> Status task = "running" ->
  armed task (scheduleTask task w).
Proof.
  intros Ht Hs. split; [| split; [done |]].
  - by destruct (scheduleTask_db task w) as [-> _].
  - apply scheduleTask_registered.
Qed.



Lemma foldl_scheduleTask_table_wf ts w :
  table_wf w -> table_wf (foldl (fun w task => scheduleTask task w) w ts).
Proof.
  revert w. induction ts as [|t ts IH]; intros w Hwf; [done |].
  simpl. by apply IH, table_wf_scheduleTask.
Qed.













(** *** Stop *)

Lemma foldr_timer_Stop_length hs (heap : list Timer) :
  length (foldr timer_Stop heap hs) = length heap.
Proof.
  induction hs as [|e hs IH]; [done |]. simpl. by rewrite timer_Stop_length.
Qed.

Lemma Stop_no_pending w k :
  timers_inv w -> running w = true -> pending_for k (Stop w) = [].
Proof.
  intros Hinv Hr. apply pending_for_nil. intros h tm Hl Ht Hp.
  pose proof (timers_inv_Stop w Hinv h tm Hl Hp) as Hreg.
  unfold Stop, stop_timers in Hreg. rewrite Hr in Hreg. simpl in Hreg.
  by rewrite lookup_empty in Hreg.
Qed.

(** X2. [Stop] on a running service stops every timer the table holds and
    empties the table, so that no timer of any task is left to fire; it
    creates no timer and leaves the task rows, with their status, and the
    log as they were; calling it again changes nothing. *)
Theorem Stop_cancels_all_timers w :
  timers_inv w -> running w = true ->
  running (Stop w) = false
  /\ taskTimers (Stop w) = ∅
  /\ (forall k, pending_for k (Stop w) = [])
  /\ length (timers (Stop w)) = length (timers w)
  /\ tasks (Stop w) = tasks w
  /\ task_logs (Stop w) = task_logs w
  /\ Stop (Stop w) = Stop w.
Proof.
  intros Hinv Hr.
  split; [by unfold Stop; rewrite Hr |]. split; [by unfold Stop; rewrite Hr |].
  split; [intros k; by apply Stop_no_pending |].
  split; [unfold Stop, stop_timers; rewrite Hr; simpl;
          by rewrite foldr_timer_Stop_length |].
  split; [by unfold Stop; rewrite Hr |]. split; [by unfold Stop; rewrite Hr |].
  unfold Stop at 1. by unfold Stop; rewrite Hr.
Qed.

Lemma Stop_cancels_all_timers_witness :
  pending_for "t1" (Stop (Start Samples.world1)) = []
  /\ tasks (Stop (Start Samples.world1)) = tasks (Start Samples.world1).
Proof.
  assert (timers_inv (Start Samples.world1)) as Hinv.
  { apply timers_inv_Start, timers_inv_AddTask. intros h tm Hl. by destruct h. }
  destruct (Stop_cancels_all_timers (Start Samples.world1) Hinv eq_refl)
    as (_ & _ & H3 & _ & H5 & _).
  split; [exact (H3 "t1") | exact H5].
Defined.




(** *** StopTask, DeleteTask, StartTask, AddTask *)

Lemma executeTask_missing taskID env w :
  tasks w !! taskID = None -> executeTask taskID env w = w.
Proof. intros Ht. unfold executeTask. by rewrite Ht. Qed.

Lemma executeTask_not_running taskID task env w :
  tasks w !! taskID = Some task -> Status task <> "running" ->
  executeTask taskID env w = w.
Proof. intros Ht Hs. unfold executeTask. rewrite Ht. by rewrite decide_True. Qed.

Lemma removeTaskTimer_pending_nil taskID w :
  timers_inv w -> pending_for taskID (removeTaskTimer taskID w) = [].
Proof.
  intros Hinv. apply pending_for_nil. intros h tm Hl Ht.
  by apply (removeTaskTimer_no_pending taskID w h tm).
Qed.

(** X4. [StopTask] on a stored task returns no error, stores the task as
    [stopped] with its other fields unchanged, takes its timer out of the
    table and leaves no timer of the task to fire; the other rows are as
    before; and a callback of the task that runs afterwards returns at once:
    nothing is logged, saved or scheduled. *)
Theorem StopTask_stops taskID task w :
  timers_inv w -> tasks w !! taskID = Some task ->
  (StopTask taskID w).1 = None
  /\ tasks (StopTask taskID w).2 !! taskID = Some (with_status task "stopped")
  /\ (forall k, k <> taskID -> tasks (StopTask taskID w).2 !! k = tasks w !! k)
  /\ task_logs (StopTask taskID w).2 = task_logs w
  /\ taskTimers (StopTask taskID w).2 !! taskID = None
  /\ pending_for taskID (StopTask taskID w).2 = []
  /\ forall env, executeTask taskID env (StopTask taskID w).2 = (StopTask taskID w).2.
Proof.
  intros Hinv Ht. unfold StopTask. cbn [fst snd].
  set (w1 := set_tasks _ w).
  destruct (removeTaskTimer_db taskID w1) as (Htk & _ & _ & Hlg & _).
  assert (tasks (removeTaskTimer taskID w1) !! taskID
          = Some (with_status task "stopped")) as Ht'.
  { rewrite Htk. subst w1. simpl. by rewrite lookup_alter_eq, Ht. }
  split; [done |]. split; [done |]. split.
  { intros k Hne. rewrite Htk. subst w1. simpl. by rewrite lookup_alter_ne. }
  split; [by rewrite Hlg |]. split; [apply removeTaskTimer_unregistered |].
  split; [by apply (removeTaskTimer_pending_nil taskID w1) |].
  intros env. by apply (executeTask_not_running _ _ _ _ Ht').
Qed.

Lemma StopTask_stops_witness :
  tasks (StopTask "t1" Samples.world1).2 !! "t1"
  = Some (with_status Samples.task1 "stopped")
  /\ pending_for "t1" (StopTask "t1" Samples.world1).2 = []
  /\ executeTask "t1" Samples.env_ok (StopTask "t1" Samples.world1).2
     = (StopTask "t1" Samples.world1).2.
Proof.
  assert (timers_inv Samples.world1) as Hinv.
  { apply timers_inv_AddTask. intros h tm Hl. by destruct h. }
  destruct (StopTask_stops "t1" Samples.task1 Samples.world1 Hinv eq_refl)
    as (_ & H2 & _ & _ & _ & H6 & H7).
  split; [exact H2 |]. split; [exact H6 | exact (H7 Samples.env_ok)].
Defined.

Lemma task_log_delete_logs taskID k w :
  task_log k (delete_logs taskID w)
  = if decide (k = taskID) then [] else task_log k w.
Proof.
  unfold task_log, delete_logs. simpl.
  induction (task_logs w) as [|e l IH]; [by case_decide |].
  destruct (decide (log_TaskID e = taskID)) as [He | He].
  - rewrite (filter_cons_False (fun e => log_TaskID e <> taskID)) by tauto.
    rewrite IH. case_decide as Hk; [done |].
    rewrite filter_cons_False by congruence. done.
  - rewrite (filter_cons_True (fun e => log_TaskID e <> taskID)) by done.
    destruct (decide (log_TaskID e = k)) as [Hk | Hk].
    + rewrite !filter_cons_True by done. rewrite IH.
      rewrite decide_False by congruence. by rewrite decide_False by congruence.
    + rewrite !filter_cons_False by done. done.
Qed.

(** X5. [DeleteTask] returns no error and removes the task's row and all
    its log entries, leaving the rows and the log entries of the other
    tasks as they were; no timer of the task is left in the table or left
    to fire; a callback of the task that runs afterwards finds no task and
    does nothing, and [StartTask] on the identifier fails without effect.
    [ClearTaskLogs] removes the same log entries and nothing else. *)
Theorem DeleteTask_removes taskID w :
  timers_inv w ->
  (DeleteTask taskID w).1 = None
  /\ tasks (DeleteTask taskID w).2 !! taskID = None
  /\ task_log taskID (DeleteTask taskID w).2 = []
  /\ (forall k, k <> taskID ->
        tasks (DeleteTask taskID w).2 !! k = tasks w !! k
        /\ task_log k (DeleteTask taskID w).2 = task_log k w)
  /\ taskTimers (DeleteTask taskID w).2 !! taskID = None
  /\ pending_for taskID (DeleteTask taskID w).2 = []
  /\ (forall env, executeTask taskID env (DeleteTask taskID w).2 = (DeleteTask taskID w).2)
  /\ StartTask taskID (DeleteTask taskID w).2
     = (Some ErrRecordNotFound, (DeleteTask taskID w).2)
  /\ (task_log taskID (ClearTaskLogs taskID w).2 = []
      /\ (forall k, k <> taskID -> task_log k (ClearTaskLogs taskID w).2 = task_log k w)
      /\ tasks (ClearTaskLogs taskID w).2 = tasks w
      /\ taskTimers (ClearTaskLogs taskID w).2 = taskTimers w
      /\ timers (ClearTaskLogs taskID w).2 = timers w).
Proof.
  intros Hinv. unfold DeleteTask, ClearTaskLogs. cbn [fst snd].
  set (w1 := removeTaskTimer taskID w).
  destruct (removeTaskTimer_db taskID w) as (Htk & _ & _ & Hlg & _). fold w1 in Htk, Hlg.
  set (w2 := set_tasks _ (delete_logs taskID w1)).
  assert (tasks w2 !! taskID = None) as Hnone.
  { subst w2. simpl. apply lookup_delete_eq. }
  assert (forall k, task_log k w2 = if decide (k = taskID) then [] else task_log k w)
    as Hlog.
  { intros k. subst w2. change (task_log k (set_tasks ?f ?x)) with (task_log k x).
    rewrite task_log_delete_logs. case_decide; [done |].
    unfold task_log. by rewrite Hlg. }
  split; [done |]. split; [done |].
  split; [by rewrite Hlog, decide_True |]. split.
  { intros k Hne. split; [| by rewrite Hlog, decide_False].
    subst w2. simpl. by rewrite lookup_delete_ne, Htk. }
  split; [apply removeTaskTimer_unregistered |].
  split; [by apply (removeTaskTimer_pending_nil taskID w) |].
  split; [intros env; by apply executeTask_missing |].
  split; [unfold StartTask; by rewrite Hnone |].
  split; [by rewrite task_log_delete_logs, decide_True |].
  split; [| done]. intros k Hne. by rewrite task_log_delete_logs, decide_False.
Qed.

Lemma DeleteTask_removes_witness :
  let w := fire_all "t1" [Samples.env_boom; Samples.env_quota] Samples.world1 in
  task_log "t1" w <> []
  /\ tasks (DeleteTask "t1" w).2 !! "t1" = None
  /\ task_log "t1" (DeleteTask "t1" w).2 = []
  /\ pending_for "t1" (DeleteTask "t1" w).2 = [].
Proof.
  intros w.
  assert (timers_inv w) as Hinv.
  { apply timers_inv_fire_all, timers_inv_AddTask. intros h tm Hl. by destruct h. }
  destruct (DeleteTask_removes "t1" w Hinv) as (_ & H2 & H3 & _ & _ & H6 & _).
  split; [discriminate |]. split; [exact H2 |]. split; [exact H3 | exact H6].
Defined.

(** X6. [StartTask] on a stored task, whatever its status ([completed],
    [stopped], [error] or [running]), returns no error, stores it as
    [running] with its counters and its other fields unchanged and leaves
    it with exactly one pending timer, at its clamped interval; on an
    identifier that is not stored it returns the lookup error and changes
    nothing. *)
Theorem StartTask_rearms taskID w :
  timers_inv w -> tasks_wf w ->
  (forall task, tasks w !! taskID = Some task ->
     (StartTask taskID w).1 = None
     /\ tasks (StartTask taskID w).2 !! taskID = Some (with_status task "running")
     /\ armed (with_status task "running") (StartTask taskID w).2
     /\ length (pending_for taskID (StartTask taskID w).2) = 1%nat
     /\ task_logs (StartTask taskID w).2 = task_logs w)
  /\ (tasks w !! taskID = None -> StartTask taskID w = (Some ErrRecordNotFound, w)).
Proof.
  intros Hinv Hwf. split.
  - intros task Ht. pose proof (Hwf _ _ Ht) as HID.
    destruct (StartTask_armed taskID task w Ht HID) as [Hnil Ha].
    pose proof (timers_inv_StartTask taskID w Hinv) as Hinv'.
    pose proof (armed_pending_for _ _ Ha Hinv') as Hone.
    destruct Ha as (Ht' & Hs' & Hreg). simpl in Ht', Hone. rewrite HID in Ht', Hone.
    split; [done |]. split; [done |].
    split; [split; [by simpl; rewrite HID | by split] |].
    split; [done |]. unfold StartTask. by rewrite Ht.
  - intros Ht. unfold StartTask. by rewrite Ht.
Qed.

Lemma StartTask_rearms_witness :
  let w := fire_task "t1" Samples.env_ok Samples.world1 in
  (exists task, tasks w !! "t1" = Some task /\ Status task = "completed")
  /\ pending_for "t1" w = []
  /\ length (pending_for "t1" (StartTask "t1" w).2) = 1%nat
  /\ StartTask "nobody" w = (Some ErrRecordNotFound, w).
Proof.
  intros w.
  assert (timers_inv w) as Hinv.
  { apply timers_inv_fire_task, timers_inv_AddTask. intros h tm Hl. by destruct h. }
  assert (tasks_wf w) as Hwf.
  { apply (tasks_wf_step Samples.world1 w).
    - by apply (step_fire Samples.world1 0 Samples.env_ok
                  (mkTimer "t1" (60 * Second) Pending)).
    - apply tasks_wf_AddTask. intros k t Hk. simpl in Hk. by rewrite lookup_empty in Hk. }
  destruct (StartTask_rearms "t1" w Hinv Hwf) as [H1 _].
  destruct (StartTask_rearms "nobody" w Hinv Hwf) as [_ H2].
  split; [eexists; split; reflexivity |]. split; [reflexivity |].
  split; [| exact (H2 eq_refl)].
  exact (proj1 (proj2 (proj2 (proj2 (H1 _ eq_refl))))).
Defined.

(** X7. [AddTask] with an identifier that is already stored returns an
    error and changes nothing; with a new identifier it stores the task
    and returns no error, and registers a timer only when the status of
    the task is [running]: then the task has exactly one pending timer at
    its clamped interval, otherwise table and timers are as before. *)
Theorem AddTask_schedules_running_only task w :
  timers_inv w ->
  (forall t0, tasks w !! ID task = Some t0 -> AddTask task w = (Some ErrDuplicatedKey, w))
  /\ (tasks w !! ID task = None ->
      (AddTask task w).1 = None
      /\ tasks (AddTask task w).2 !! ID task = Some task
      /\ (forall k, k <> ID task -> tasks (AddTask task w).2 !! k = tasks w !! k)
      /\ (Status task = "running" ->
          armed task (AddTask task w).2
          /\ length (pending_for (ID task) (AddTask task w).2) = 1%nat)
      /\ (Status task <> "running" ->
          taskTimers (AddTask task w).2 = taskTimers w
          /\ timers (AddTask task w).2 = timers w)).
Proof.
  intros Hinv. split.
  - intros t0 Ht. unfold AddTask. by rewrite Ht.
  - intros Hnew. pose proof (timers_inv_AddTask task w Hinv) as Hinv'.
    unfold AddTask in *. rewrite Hnew in *. cbn [fst snd] in *.
    split; [done |].
    destruct (decide (Status task = "running")) as [Hs | Hs].
    + set (w1 := set_tasks _ w) in *.
      destruct (scheduleTask_db task w1) as (Htk & _).
      assert (armed task (scheduleTask task w1)) as Ha.
      { apply armed_scheduleTask; [| done]. subst w1. simpl. apply lookup_insert_eq. }
      split; [by destruct Ha |]. split.
      { intros k Hne. rewrite Htk. subst w1. simpl. by rewrite lookup_insert_ne. }
      split; [| done]. intros _. split; [done |]. by apply armed_pending_for.
    + simpl. split; [apply lookup_insert_eq |]. split.
      { intros k Hne. by rewrite lookup_insert_ne. }
      split; [done |]. by intros _.
Qed.

Lemma AddTask_schedules_running_only_witness :
  AddTask Samples.task1 Samples.world1 = (Some ErrDuplicatedKey, Samples.world1)
  /\ timers (AddTask (with_status Samples.task1 "stopped")
               (NewTaskService ∅ ∅ ∅ [])).2 = []
  /\ length (pending_for "t1" (AddTask Samples.task1 (NewTaskService ∅ ∅ ∅ [])).2)
     = 1%nat.
Proof.
  assert (timers_inv Samples.world1) as Hinv.
  { apply timers_inv_AddTask. intros h tm Hl. by destruct h. }
  assert (timers_inv (NewTaskService ∅ ∅ ∅ [])) as Hinv0.
  { intros h tm Hl. by destruct h. }
  split; [| split].
  - exact (proj1 (AddTask_schedules_running_only Samples.task1 Samples.world1 Hinv)
             _ eq_refl).
  - destruct (proj2 (AddTask_schedules_running_only
                       (with_status Samples.task1 "stopped") _ Hinv0) eq_refl)
      as (_ & _ & _ & _ & H5).
    exact (proj2 (H5 ltac:(discriminate))).
  - destruct (proj2 (AddTask_schedules_running_only Samples.task1 _ Hinv0) eq_refl)
      as (_ & _ & _ & H4 & _).
    exact (proj2 (H4 eq_refl)).
Defined.


(** *** A firing and the other tasks *)

Lemma pending_at_alter (f : Timer -> Timer) taskID k e (heap : list Timer) h :
  (forall x, tm_task (f x) = tm_task x) ->
  (forall tm0, heap !! e = Some tm0 -> tm_task tm0 = taskID) -> k <> taskID ->
  pending_at k (alter f e heap) h <-> pending_at k heap h.
Proof.
  intros Hf He Hne. unfold pending_at. destruct (decide (e = h)) as [-> | Hneq].
  - rewrite list_lookup_alter_eq. destruct (heap !! h) as [tm0|] eqn:Hl; simpl.
    + pose proof (He _ eq_refl) as Ht0. split.
      * intros (tm & [= <-] & Ht & _). rewrite Hf in Ht. congruence.
      * intros (tm & [= <-] & Ht & _). congruence.
    + split; intros (tm & [=] & _).
  - by rewrite list_lookup_alter_ne.
Qed.

Lemma pending_at_snoc taskID k (heap : list Timer) tm0 h :
  tm_task tm0 = taskID -> k <> taskID ->
  pending_at k (heap ++ [tm0]) h <-> pending_at k heap h.
Proof.
  intros Ht0 Hne. unfold pending_at. split.
  - intros (tm & Hl & Ht & Hp). apply lookup_app_Some in Hl as [Hl | [_ Hl]]; [eauto |].
    destruct (h - length heap)%nat as [|n]; [| by destruct n].
    simpl in Hl. injection Hl as <-. congruence.
  - intros (tm & Hl & Ht & Hp). exists tm. split; [by apply lookup_app_l_Some | done].
Qed.

Lemma pending_at_scheduleTask task k w h :
  table_wf w -> k <> ID task ->
  pending_at k (timers (scheduleTask task w)) h <-> pending_at k (timers w) h.
Proof.
  intros Hwf Hne. rewrite scheduleTask_timers.
  rewrite (pending_at_snoc (ID task)) by done.
  unfold stopped_heap. destruct (taskTimers w !! ID task) as [e|] eqn:He; [| done].
  apply (pending_at_alter stop_timer (ID task)); [apply stop_timer_task | | done].
  intros tm0 Hl. destruct (Hwf _ _ He) as (tm & Hl' & Ht). congruence.
Qed.

Lemma pending_at_removeTaskTimer taskID k w h :
  table_wf w -> k <> taskID ->
  pending_at k (timers (removeTaskTimer taskID w)) h <-> pending_at k (timers w) h.
Proof.
  intros Hwf Hne. unfold removeTaskTimer.
  destruct (taskTimers w !! taskID) as [e|] eqn:He; [| done]. simpl.
  apply (pending_at_alter stop_timer taskID); [apply stop_timer_task | | done].
  intros tm0 Hl. destruct (Hwf _ _ He) as (tm & Hl' & Ht). congruence.
Qed.

Lemma elem_of_pending_for_at k w h : h ∈ pending_for k w <-> pending_at k (timers w) h.
Proof. apply elem_of_pending_for. Qed.

Lemma same_elsewhere_executeTask taskID env w :
  table_wf w -> tasks_wf w -> same_elsewhere taskID w (executeTask taskID env w).
Proof.
  intros Htw Hwf k Hne.
  destruct (executeTask_cases taskID env w)
    as [-> | [[msg ->] | (t0 & t' & kind & msg & Ht0 & HID & [-> | ->])]].
  - done.
  - split; [done |]. split; [by apply task_log_logTaskExecution | done].
  - pose proof (Hwf _ _ Ht0) as Hk.
    set (w1 := db_Save t' (logTaskExecution taskID kind msg (now env) w)).
    destruct (scheduleTask_db t' w1) as (Htk & _ & _ & Hlg & _).
    split; [| split; [| split]].
    + rewrite Htk. subst w1. simpl. rewrite lookup_insert_ne; [done | congruence].
    + unfold task_log. rewrite Hlg.
      by apply (task_log_logTaskExecution k taskID kind msg (now env) w).
    + rewrite scheduleTask_taskTimers. rewrite lookup_insert_ne; [done | congruence].
    + intros h. rewrite !elem_of_pending_for_at.
      apply (pending_at_scheduleTask t' k w1 h); [done | congruence].
  - set (w1 := db_Save t' (logTaskExecution taskID kind msg (now env) w)).
    pose proof (Hwf _ _ Ht0) as Hk.
    destruct (removeTaskTimer_db taskID w1) as (Htk & _ & _ & Hlg & _).
    split; [| split; [| split]].
    + rewrite Htk. subst w1. simpl. rewrite lookup_insert_ne; [done | congruence].
    + unfold task_log. rewrite Hlg.
      by apply (task_log_logTaskExecution k taskID kind msg (now env) w).
    + unfold removeTaskTimer. destruct (taskTimers w1 !! taskID); [| done].
      simpl. by rewrite lookup_delete_ne.
    + intros h. rewrite !elem_of_pending_for_at.
      by apply (pending_at_removeTaskTimer taskID k w1 h).
Qed.

Lemma executeTask_env_db taskID env w :
  users (executeTask taskID env w) = users w
  /\ ssh_keys (executeTask taskID env w) = ssh_keys w
  /\ running (executeTask taskID env w) = running w
  /\ (length (task_logs (executeTask taskID env w)) <= length (task_logs w) + 1)%nat.
Proof.
  destruct (executeTask_cases taskID env w)
    as [-> | [[msg ->] | (t0 & t' & kind & msg & Ht0 & HID & [-> | ->])]].
  - repeat split; lia.
  - simpl. rewrite length_app. simpl. repeat split; lia.
  - destruct (scheduleTask_db t' (db_Save t' (logTaskExecution taskID kind msg (now env) w)))
      as (_ & -> & -> & -> & ->).
    simpl. rewrite length_app. simpl. repeat split; lia.
  - destruct (removeTaskTimer_db taskID
                (db_Save t' (logTaskExecution taskID kind msg (now env) w)))
      as (_ & -> & -> & -> & ->).
    simpl. rewrite length_app. simpl. repeat split; lia.
Qed.

(** X8. The firing of a task's timer leaves every other task as it was:
    its row, its log entries, its entry in the timer table and its pending
    timers; it changes neither the accounts nor the keys, and appends at
    most one entry to the log. *)
Theorem firing_touches_own_task_only h env tm w :
  sched_inv w -> timers w !! h = Some tm -> tm_state tm = Pending ->
  same_elsewhere (tm_task tm) w (fire h env w)
  /\ users (fire h env w) = users w
  /\ ssh_keys (fire h env w) = ssh_keys w
  /\ (length (task_logs (fire h env w)) <= length (task_logs w) + 1)%nat.
Proof.
  intros (Hinv & Htw & Hwf) Hl Hp. unfold fire. rewrite Hl, Hp.
  set (w1 := set_timers (alter expire_timer h) w).
  assert (table_wf w1) as Htw1.
  { apply (table_wf_atomic w w1); [by eapply atomic_expire | done]. }
  split.
  - intros k Hne.
    destruct (same_elsewhere_executeTask (tm_task tm) env w1 Htw1 Hwf k Hne)
      as (H1 & H2 & H3 & H4).
    split; [done |]. split; [done |]. split; [done |].
    intros h'. rewrite H4, !elem_of_pending_for_at. subst w1. simpl.
    apply (pending_at_alter expire_timer (tm_task tm)); [done | | done].
    intros tm0 Hl0. congruence.
  - destruct (executeTask_env_db (tm_task tm) env w1) as (-> & -> & _ & Hlen).
    by subst w1.
Qed.

Lemma firing_touches_own_task_only_witness :
  let t2 := mkTask "t2" "u1" "k1" 30 "running" 0 0 None "" in
  let w := (AddTask t2 Samples.world1).2 in
  tasks (fire 0 Samples.env_ok w) !! "t2" = Some t2
  /\ task_log "t2" (fire 0 Samples.env_ok w) = []
  /\ (1%nat ∈ pending_for "t2" (fire 0 Samples.env_ok w)).
Proof.
  intros t2 w.
  assert (sched_inv w) as Hinv.
  { apply sched_inv_run. eapply run_step; [| apply (step_AddTask _ t2)].
    eapply run_step; [| apply (step_AddTask _ Samples.task1)].
    apply run_init. intros k t Hk. by rewrite lookup_empty in Hk. }
  destruct (firing_touches_own_task_only 0 Samples.env_ok
              (mkTimer "t1" (60 * Second) Pending) w Hinv eq_refl eq_refl)
    as [Hsame _].
  destruct (Hsame "t2" ltac:(discriminate)) as (H1 & H2 & _ & H4).
  split; [exact H1 |]. split; [exact H2 |].
  apply H4. apply elem_of_pending_for. by eexists.
Defined.


(** *** The one-shot execution: errors, and the schedule *)

(** X9. [ExecuteTaskOnce] returns no error exactly when the task is
    stored, its account and its key are found and the provisioning attempt
    succeeds.  On an identifier that is not stored it returns the lookup
    error and changes nothing.  When the account or the key is missing, it
    returns the error it logs, appends that one error entry to the log and
    leaves the task's row as it was: status and counters do not change. *)
Theorem ExecuteTaskOnce_failures taskID env w :
  ((ExecuteTaskOnce taskID env w).1 = None
   <-> exists task, tasks w !! taskID = Some task /\ resolves task w
                    /\ CreateInstance env = None)
  /\ (tasks w !! taskID = None ->
      ExecuteTaskOnce taskID env w
      = (Some ("任务不存在: " +:+ ErrRecordNotFound)%string, w))
  /\ (forall task, tasks w !! taskID = Some task -> ~ resolves task w ->
      exists msg,
        (ExecuteTaskOnce taskID env w).1 = Some msg
        /\ (msg = ("配置不存在: " +:+ ErrRecordNotFound)%string
            \/ msg = ("SSH密钥不存在: " +:+ ErrRecordNotFound)%string)
        /\ task_logs (ExecuteTaskOnce taskID env w).2
           = task_logs w ++ [mkLog taskID "error" msg (now env)]
        /\ tasks (ExecuteTaskOnce taskID env w).2 = tasks w).
Proof.
  unfold ExecuteTaskOnce, resolves. split; [| split].
  - destruct (tasks w !! taskID) as [task|] eqn:Ht.
    + destruct (users w !! UserID task) as [u|] eqn:Hu.
      * destruct (ssh_keys w !! SSHKeyID task) as [k|] eqn:Hk.
        -- destruct (CreateInstance env) as [e|] eqn:He; simpl.
           ++ split; [done |]. by intros (t & _ & _ & ?).
           ++ split; [| done]. intros _. exists task. rewrite Hu, Hk. eauto.
        -- simpl. split; [done |]. intros (t & [= <-] & [_ [? Hk']] & _). congruence.
      * simpl. split; [done |]. intros (t & [= <-] & [[? Hu'] _] & _). congruence.
    + simpl. split; [done |]. by intros (t & ? & _).
  - by intros ->.
  - intros task -> Hres.
    destruct (users w !! UserID task) as [u|] eqn:Hu.
    + destruct (ssh_keys w !! SSHKeyID task) as [k|] eqn:Hk.
      * destruct Hres. eauto.
      * eexists. simpl. eauto.
    + eexists. simpl. eauto.
Qed.

Lemma ExecuteTaskOnce_failures_witness :
  (ExecuteTaskOnce "t1" Samples.env_ok Samples.world_no_user).1
  = Some ("配置不存在: " +:+ ErrRecordNotFound)%string
  /\ tasks (ExecuteTaskOnce "t1" Samples.env_ok Samples.world_no_user).2
     = tasks Samples.world_no_user
  /\ ExecuteTaskOnce "nobody" Samples.env_ok Samples.world1
     = (Some ("任务不存在: " +:+ ErrRecordNotFound)%string, Samples.world1).
Proof.
  destruct (ExecuteTaskOnce_failures "t1" Samples.env_ok Samples.world_no_user)
    as (_ & _ & H3).
  destruct (H3 Samples.task1 eq_refl) as (msg & Hmsg & _ & _ & Htk).
  { intros [[u Hu] _]. discriminate Hu. }
  split; [reflexivity |]. split; [exact Htk |].
  exact (proj1 (proj2 (ExecuteTaskOnce_failures "nobody" Samples.env_ok Samples.world1))
           eq_refl).
Defined.

(** X10. A one-shot execution of a running task that has a pending timer
    leaves that timer pending, whatever its outcome; but it stores the
    task as [completed] or [error], so the firing of the timer returns at
    once: it logs nothing, saves nothing and sets no new timer, and the
    task has no timer left. *)
Theorem one_shot_ends_schedule task env env' w :
  armed task w -> resolves task w -> timers_inv w ->
  let w1 := (ExecuteTaskOnce (ID task) env w).2 in
  let w2 := fire_task (ID task) env' w1 in
  length (pending_for (ID task) w1) = 1%nat
  /\ (exists task', tasks w1 !! ID task = Some task' /\ Status task' <> "running")
  /\ tasks w2 = tasks w1
  /\ task_logs w2 = task_logs w1
  /\ taskTimers w2 = taskTimers w1
  /\ length (timers w2) = length (timers w1)
  /\ pending_for (ID task) w2 = [].
Proof.
  intros Ha Hres Hinv w1 w2.
  pose proof (armed_pending_for _ _ Ha Hinv) as Hone.
  destruct Ha as (Ht & Hs & h & Hh & Htm).
  destruct (ExecuteTaskOnce_timers (ID task) env w) as [Htt Hti]. fold w1 in Htt, Hti.
  assert (timers_inv w1) as Hinv1 by by apply timers_inv_ExecuteTaskOnce.
  assert (exists task', tasks w1 !! ID task = Some task' /\ Status task' <> "running")
    as (task' & Ht' & Hs').
  { destruct Hres as [[u Hu] [k Hk]]. subst w1. unfold ExecuteTaskOnce.
    rewrite Ht, Hu, Hk. destruct (CreateInstance env); simpl;
      rewrite lookup_insert_eq; by eexists. }
  split.
  { unfold pending_for in *. by rewrite Hti. }
  split; [by exists task' |].
  assert (w2 = set_timers (alter expire_timer h) w1) as ->.
  { subst w2. unfold fire_task, fire. rewrite Htt, Hh, Hti, Htm. simpl.
    by apply (executeTask_not_running _ task'). }
  simpl. split; [done |]. split; [done |]. split; [done |].
  split; [by rewrite length_alter |].
  apply pending_for_nil. intros h' tm' Hl' Ht'' Hp'.
  pose proof (timers_inv_expire h w1 Hinv1 h' tm' Hl' Hp') as Hreg. simpl in *.
  rewrite Ht'', Htt, Hh in Hreg. injection Hreg as <-.
  rewrite list_lookup_alter_eq, Hti, Htm in Hl'. by injection Hl' as <-.
Qed.

Lemma one_shot_ends_schedule_witness :
  let w1 := (ExecuteTaskOnce "t1" Samples.env_boom Samples.world1).2 in
  length (pending_for "t1" w1) = 1%nat
  /\ task_logs (fire_task "t1" Samples.env_ok w1) = task_logs w1
  /\ pending_for "t1" (fire_task "t1" Samples.env_ok w1) = [].
Proof.
  intros w1.
  assert (armed Samples.task1 Samples.world1) as Ha.
  { split; [reflexivity |]. split; [reflexivity |]. exists 0%nat. by split. }
  assert (resolves Samples.task1 Samples.world1) as Hr.
  { split; eexists; reflexivity. }
  assert (timers_inv Samples.world1) as Hinv.
  { apply timers_inv_AddTask. intros h tm Hl. by destruct h. }
  destruct (one_shot_ends_schedule Samples.task1 Samples.env_boom Samples.env_ok
              Samples.world1 Ha Hr Hinv) as (H1 & _ & _ & H4 & _ & _ & H7).
  split; [exact H1 |]. split; [exact H4 | exact H7].
Defined.


(** X20. Along every run of the service over a task table whose rows are
    stored under their own identifier, every entry of the timer table
    points to a timer that exists and whose callback is for that same
    task; when that timer is still to fire it is the task's only pending
    timer; and the rows stay stored under their own identifier. *)
Theorem table_points_to_own_timers w :
  run w ->
  (forall k h, taskTimers w !! k = Some h ->
     exists tm, timers w !! h = Some tm /\ tm_task tm = k
       /\ (tm_state tm = Pending -> pending_for k w = [h]))
  /\ (forall k task, tasks w !! k = Some task -> ID task = k).
Proof.
  intros (Hinv & Htw & Hwf)%sched_inv_run. split; [| done].
  intros k h Hk. destruct (Htw _ _ Hk) as (tm & Hl & Ht).
  exists tm. split; [done |]. split; [done |]. intros Hp.
  pose proof (pending_for_at_most_one k w Hinv) as Hle.
  assert (h ∈ pending_for k w) as Hin by (apply elem_of_pending_for; eauto).
  destruct (pending_for k w) as [|a [|b l]]; simpl in Hle.
  - by apply elem_of_nil in Hin.
  - apply elem_of_cons in Hin as [-> | Hin]; [done | by apply elem_of_nil in Hin].
  - lia.
Qed.

Lemma table_points_to_own_timers_witness :
  pending_for "t1" (StartTask "t1" Samples.world1).2 = [1%nat].
Proof.
  assert (run (StartTask "t1" Samples.world1).2) as Hr.
  { eapply run_step; [| apply step_StartTask].
    eapply run_step; [| apply (step_AddTask _ Samples.task1)].
    apply run_init. intros k t Hk. by rewrite lookup_empty in Hk. }
  destruct (proj1 (table_points_to_own_timers _ Hr) "t1" 1%nat eq_refl)
    as (tm & Hl & _ & Hp).
  apply Hp. by injection Hl as <-.
Defined.

End SchedFacts.

(* ===================================================================== *)
(** ** Further properties of the bot *)
(* ===================================================================== *)

Section BotFacts.
Import TelegramService TelegramController BotOps BotHandlers.

Implicit Types (s : Service) (req : UpdateTelegramConfigRequest).

#[local] Arguments String.append !_ _ / : simpl nomatch.

Lemma configured_test s :
  negb (enabled s) || String.eqb (botToken s) "" || String.eqb (chatID s) "" = false
  <-> configured s.
Proof.
  unfold configured.
  destruct (enabled s), (String.eqb_spec (botToken s) ""), (String.eqb_spec (chatID s) "");
    simpl; split; try done; intros (? & ? & ?); done.
Qed.

Lemma configured_dec s : configured s \/ ~ configured s.
Proof.
  rewrite <- configured_test.
  destruct (negb (enabled s) || String.eqb (botToken s) "" || String.eqb (chatID s) "");
    [by right | by left].
Qed.

Lemma service_UpdateConfig_fields token chat en s :
  botToken (TelegramService.UpdateConfig token chat en s) = token
  /\ chatID (TelegramService.UpdateConfig token chat en s) = chat
  /\ enabled (TelegramService.UpdateConfig token chat en s) = en
  /\ running (TelegramService.UpdateConfig token chat en s)
     = en && negb (String.eqb token "") && negb (String.eqb chat "")
  /\ settings (TelegramService.UpdateConfig token chat en s)
     = <[SettingKeyTgEnabled := fmt_t en]>
         (<[SettingKeyTgChatID := chat]>
            (<[SettingKeyTgBotToken := token]> (settings s))).
Proof.
  unfold TelegramService.UpdateConfig, TelegramService.StartBot, TelegramService.StopBot.
  destruct (en && negb (String.eqb token "") && negb (String.eqb chat ""));
    simpl; destruct (running s); simpl; done.
Qed.

Lemma UpdateConfig_running_iff req s :
  running (UpdateConfig req s) = true <-> configured (UpdateConfig req s).
Proof.
  unfold UpdateConfig. simpl.
  destruct (service_UpdateConfig_fields
              (effective_token (botToken s) (req_BotToken req))
              (req_ChatID req) (req_Enabled req) s) as (Ht & Hc & He & Hr & _).
  rewrite <- configured_test, Ht, Hc, He, Hr.
  destruct (req_Enabled req), (String.eqb _ ""), (String.eqb (req_ChatID req) "");
    simpl; split; done.
Qed.

Lemma StartBot_cases s :
  (configured s /\ (StartBot s).1 = mkResponse 200 "Bot 已启动"
   /\ running (StartBot s).2 = true
   /\ botToken (StartBot s).2 = botToken s /\ chatID (StartBot s).2 = chatID s
   /\ enabled (StartBot s).2 = enabled s /\ settings (StartBot s).2 = settings s)
  \/ (~ configured s /\ StartBot s = (mkResponse 400 "请先配置并启用 Telegram", s)).
Proof.
  unfold StartBot. simpl.
  destruct (negb (enabled s) || String.eqb (botToken s) "" || String.eqb (chatID s) "")
    eqn:E.
  - right. split; [| done]. intros Hc%configured_test. congruence.
  - left. apply configured_test in E. split; [done |]. cbn [fst snd].
    unfold TelegramService.StartBot. destruct (running s) eqn:Hr; by simpl; rewrite ?Hr.
Qed.

Lemma StopBot_fields s :
  running (StopBot s).2 = false
  /\ botToken (StopBot s).2 = botToken s /\ chatID (StopBot s).2 = chatID s
  /\ enabled (StopBot s).2 = enabled s /\ settings (StopBot s).2 = settings s.
Proof.
  unfold StopBot, TelegramService.StopBot. cbn [fst snd].
  destruct (running s) eqn:Hr; by simpl; rewrite ?Hr.
Qed.

Lemma handler_step_running s s' :
  handler_step s s' -> (running s = true -> configured s) ->
  running s' = true -> configured s'.
Proof.
  destruct 1 as [s req | s | s]; intros Hinv Hr.
  - by apply UpdateConfig_running_iff.
  - destruct (StartBot_cases s) as [(Hc & _ & _ & Ht & Hch & He & _) | [_ Heq]].
    + unfold configured in *. by rewrite Ht, Hch, He.
    + rewrite Heq in *. by apply Hinv.
  - destruct (StopBot_fields s) as (Hr' & _). congruence.
Qed.

(** X11. Driven through its HTTP handlers ([UpdateConfig], [StartBot],
    [StopBot]) from its construction on, the bot loop runs only while the
    bot is enabled and has a token and a chat identifier.  After
    [UpdateConfig] it runs exactly when the configuration it stored is
    such, whatever ran before; [StartBot] answers 400 and changes nothing
    when the bot is not so configured, and starts the loop otherwise;
    after [StopBot] it does not run. *)
Theorem bot_runs_only_when_configured :
  (forall s, handler_reachable s -> running s = true -> configured s)
  /\ (forall s req, running (UpdateConfig req s) = true <-> configured (UpdateConfig req s))
  /\ (forall s, ~ configured s ->
        StartBot s = (mkResponse 400 "请先配置并启用 Telegram", s))
  /\ (forall s, configured s ->
        code (StartBot s).1 = 200 /\ GetBotStatus (StartBot s).2 = true)
  /\ (forall s, GetBotStatus (StopBot s).2 = false).
Proof.
  split; [| split; [| split; [| split]]].
  - intros s Hr. induction Hr as [st | s s' _ IH Hs].
    + discriminate.
    + by apply (handler_step_running s s').
  - intros s req. apply UpdateConfig_running_iff.
  - intros s Hn. by destruct (StartBot_cases s) as [[Hc _] | [_ Heq]].
  - intros s Hc. destruct (StartBot_cases s) as [(_ & -> & Hr & _) | [Hn _]]; done.
  - intros s. by destruct (StopBot_fields s) as (Hr & _).
Qed.

Lemma bot_runs_only_when_configured_witness :
  let s := UpdateConfig (mkUpdateRequest "123456:ABCDEFGHIJKL" "42" true)
             (NewTelegramService ∅) in
  running s = true
  /\ configured s
  /\ running (UpdateConfig (mkUpdateRequest "" "" true) s) = false
  /\ StartBot (NewTelegramService ∅)
     = (mkResponse 400 "请先配置并启用 Telegram", NewTelegramService ∅).
Proof.
  intros s.
  destruct bot_runs_only_when_configured as (H1 & _ & H3 & _).
  assert (handler_reachable s) as Hr.
  { eapply handler_next; [apply handler_init | apply handler_UpdateConfig]. }
  split; [reflexivity |]. split; [exact (H1 s Hr eq_refl) |].
  split; [reflexivity |].
  apply H3. intros (He & _). discriminate He.
Defined.

(** *** The settings table *)

Lemma setting_keys_distinct :
  SettingKeyTgBotToken <> SettingKeyTgChatID
  /\ SettingKeyTgBotToken <> SettingKeyTgEnabled
  /\ SettingKeyTgChatID <> SettingKeyTgEnabled.
Proof. repeat split; discriminate. Qed.

Lemma fmt_t_true en : bool_decide (fmt_t en = "true"%string) = en.
Proof. by destruct en. Qed.

Lemma loadConfig_UpdateConfig token chat en s :
  loadConfig (TelegramService.UpdateConfig token chat en s)
  = TelegramService.UpdateConfig token chat en s.
Proof.
  destruct (service_UpdateConfig_fields token chat en s) as (Ht & Hc & He & Hr & Hst).
  destruct setting_keys_distinct as (H1 & H2 & H3).
  unfold loadConfig. rewrite Hst.
  rewrite lookup_insert_ne, lookup_insert_ne, lookup_insert_eq by done.
  rewrite (lookup_insert_ne _ SettingKeyTgEnabled SettingKeyTgChatID) by done.
  rewrite lookup_insert_eq, lookup_insert_eq. simpl. rewrite fmt_t_true.
  clear Hr. destruct (TelegramService.UpdateConfig token chat en s).
  simpl in *. congruence.
Qed.

Lemma loadConfig_same_config s s' :
  botToken s' = botToken s -> chatID s' = chatID s -> enabled s' = enabled s ->
  settings s' = settings s -> loadConfig s = s -> loadConfig s' = s'.
Proof.
  destruct s as [t c e r st], s' as [t' c' e' r' st']. unfold loadConfig. simpl.
  intros -> -> -> -> [= E1 E2 E3]. by rewrite E1, E2, E3.
Qed.

(** X12. The configuration in memory always agrees with the settings
    table: along every run of the handlers, reading the table again with
    [loadConfig], as a restart does, gives back the same token, chat
    identifier and enabled flag.  [UpdateConfig] of the service writes
    exactly the three settings of the bot and leaves every other key of the
    table as it was. *)
Theorem settings_agree_with_memory :
  (forall s, handler_reachable s -> loadConfig s = s)
  /\ (forall token chat en s,
        settings (TelegramService.UpdateConfig token chat en s) !! SettingKeyTgBotToken
        = Some token
        /\ settings (TelegramService.UpdateConfig token chat en s) !! SettingKeyTgChatID
           = Some chat
        /\ settings (TelegramService.UpdateConfig token chat en s) !! SettingKeyTgEnabled
           = Some (fmt_t en)
        /\ forall k, k <> SettingKeyTgBotToken -> k <> SettingKeyTgChatID ->
             k <> SettingKeyTgEnabled ->
             settings (TelegramService.UpdateConfig token chat en s) !! k
             = settings s !! k).
Proof.
  split.
  - intros s Hr. induction Hr as [st | s s' _ IH Hs]; [done |].
    destruct Hs as [s req | s | s].
    + apply loadConfig_UpdateConfig.
    + destruct (StartBot_cases s) as [(_ & _ & Hr & Ht & Hc & He & Hst) | [_ Heq]].
      * by apply (loadConfig_same_config s).
      * by rewrite Heq.
    + destruct (StopBot_fields s) as (Hr & Ht & Hc & He & Hst).
      by apply (loadConfig_same_config s).
  - intros token chat en s.
    destruct (service_UpdateConfig_fields token chat en s) as (_ & _ & _ & _ & ->).
    destruct setting_keys_distinct as (H1 & H2 & H3).
    split; [by rewrite lookup_insert_ne, lookup_insert_ne, lookup_insert_eq |].
    split; [by rewrite lookup_insert_ne, lookup_insert_eq |].
    split; [by rewrite lookup_insert_eq |].
    intros k Hk1 Hk2 Hk3. by rewrite !lookup_insert_ne.
Qed.

Lemma settings_agree_with_memory_witness :
  let s := UpdateConfig (mkUpdateRequest "123456:ABCDEFGHIJKL" "42" true)
             (NewTelegramService {["other" := "kept"%string]}) in
  loadConfig s = s /\ settings s !! "other" = Some "kept"%string.
Proof.
  intros s.
  destruct settings_agree_with_memory as (H1 & H2).
  split.
  - apply H1. eapply handler_next; [apply handler_init | apply handler_UpdateConfig].
  - destruct (H2 "123456:ABCDEFGHIJKL"%string "42"%string true
                (NewTelegramService {["other" := "kept"%string]})) as (_ & _ & _ & H4).
    exact (H4 "other" ltac:(discriminate) ltac:(discriminate) ltac:(discriminate)).
Defined.

End BotFacts.

(* ===================================================================== *)
(** ** Reading the configuration and sending it back *)
(* ===================================================================== *)

Section RoundTripFacts.
Import TelegramService TelegramController.

Implicit Types (s : Service) (t a b : string).

#[local] Arguments String.append !_ _ / : simpl nomatch.

Lemma string_length_app a b :
  String.length (a +:+ b) = (String.length a + String.length b)%nat.
Proof. induction a as [|c a IH]; simpl; [done | by rewrite IH]. Qed.

Lemma substring_length n m t :
  (n + m <= String.length t)%nat -> String.length (String.substring n m t) = m.
Proof.
  revert n m. induction t as [|c t IH]; intros n m Hle; simpl in Hle.
  - assert (n = 0 /\ m = 0)%nat as [-> ->] by lia. done.
  - destruct n as [|n]; simpl.
    + destruct m as [|m]; simpl; [done |]. rewrite IH; [done | lia].
    + apply IH. lia.
Qed.

Lemma substring_whole t : String.substring 0 (String.length t) t = t.
Proof. induction t as [|c t IH]; simpl; [done | by rewrite IH]. Qed.

Lemma substring_skip a b m :
  String.substring (String.length a) m (a +:+ b) = String.substring 0 m b.
Proof. induction a as [|c a IH]; simpl; [done | apply IH]. Qed.

(** The last [length b] characters of [a ++ b] are [b]. *)
Lemma slice_from_app a b : slice_from (String.length a) (a +:+ b) = b.
Proof.
  unfold slice_from. rewrite string_length_app, substring_skip.
  replace (String.length a + String.length b - String.length a)%nat
    with (String.length b) by lia.
  apply substring_whole.
Qed.

Lemma mask_long t :
  (10 < String.length t)%nat ->
  mask t = slice_to 6 t +:+ "****" +:+ slice_from (String.length t - 4) t
  /\ String.length (slice_to 6 t) = 6%nat
  /\ String.length (slice_from (String.length t - 4) t) = 4%nat.
Proof.
  intros Hlen. unfold mask. rewrite (proj2 (Nat.ltb_lt _ _) Hlen).
  split; [done |]. unfold slice_to, slice_from.
  split; rewrite substring_length by lia; lia.
Qed.

(** The last four characters of the mask of a long token are those of
    the token. *)
Lemma mask_long_suffix t :
  (10 < String.length t)%nat ->
  String.length (mask t) = 14%nat
  /\ slice_from (String.length (mask t) - 4) (mask t)
     = slice_from (String.length t - 4) t.
Proof.
  intros Hlen. destruct (mask_long t Hlen) as (-> & H6 & H4).
  assert (String.length (slice_to 6 t +:+ "****") = 10%nat) as H10.
  { rewrite string_length_app, H6. done. }
  assert (slice_to 6 t +:+ "****" +:+ slice_from (String.length t - 4) t
          = (slice_to 6 t +:+ "****") +:+ slice_from (String.length t - 4) t) as ->.
  { by rewrite string_app_assoc. }
  rewrite string_length_app, H10, H4. split; [done |].
  replace (10 + 4 - 4)%nat with (String.length (slice_to 6 t +:+ "****")) by lia.
  apply slice_from_app.
Qed.

Lemma controller_UpdateConfig_token req s :
  botToken (UpdateConfig req s) = effective_token (botToken s) (req_BotToken req).
Proof.
  unfold UpdateConfig. simpl.
  unfold TelegramService.UpdateConfig, StartBot, StopBot.
  repeat case_match; done.
Qed.

(** X13. Reading the configuration and sending the token field back as
    it was read keeps the stored token only when it is empty or is longer
    than ten characters and itself ends in ["****"].  In every other case
    the read replaces the token by its mask: a token of at most ten
    characters becomes ["****"], a longer one becomes its first six
    characters, ["****"] and its last four characters. *)
Theorem mask_round_trip s chat en :
  let token := botToken s in
  let token' :=
    botToken (UpdateConfig (mkUpdateRequest (resp_BotToken (GetConfig s)) chat en) s) in
  (token = EmptyString -> token' = EmptyString)
  /\ (token <> EmptyString -> (String.length token <= 10)%nat -> token' = "****"%string)
  /\ ((10 < String.length token)%nat ->
      slice_from (String.length token - 4) token = "****"%string -> token' = token)
  /\ ((10 < String.length token)%nat ->
      slice_from (String.length token - 4) token <> "****"%string ->
      token' = mask token /\ String.length token' = 14%nat).
Proof.
  intros token token'. subst token'. rewrite controller_UpdateConfig_token.
  cbn [req_BotToken]. unfold GetConfig. cbn [TelegramService.GetConfig resp_BotToken].
  fold token. unfold effective_token.
  split; [| split; [| split]].
  - intros ->. done.
  - intros Hne Hlen. unfold mask.
    rewrite (proj2 (Nat.ltb_ge _ _) Hlen).
    rewrite (proj2 (String.eqb_neq _ _) Hne). done.
  - intros Hlen Hsuf. destruct (mask_long_suffix token Hlen) as [H14 Hs].
    rewrite Hs, Hsuf, H14. simpl. by rewrite orb_true_r.
  - intros Hlen Hsuf. destruct (mask_long_suffix token Hlen) as [H14 Hs].
    rewrite Hs, H14.
    rewrite (proj2 (String.eqb_neq _ _) Hsuf).
    assert (String.eqb (mask token) "" = false) as ->.
    { apply String.eqb_neq. intros E. by rewrite E in H14. }
    done.
Qed.

Lemma mask_round_trip_witness :
  let s := mkService "123456:ABCDEFGHIJKL" "42" true false ∅ in
  botToken (UpdateConfig (mkUpdateRequest (resp_BotToken (GetConfig s)) "42" true) s)
  = "123456****IJKL"%string
  /\ botToken (UpdateConfig
                 (mkUpdateRequest
                    (resp_BotToken (GetConfig (mkService "abc" "42" true false ∅)))
                    "42" true)
                 (mkService "abc" "42" true false ∅))
     = "****"%string.
Proof.
  intros s. split.
  - destruct (mask_round_trip s "42" true) as (_ & _ & _ & H4).
    exact (proj1 (H4 ltac:(simpl; lia) ltac:(discriminate))).
  - destruct (mask_round_trip (mkService "abc" "42" true false ∅) "42" true)
      as (_ & H2 & _).
    exact (H2 ltac:(discriminate) ltac:(simpl; lia)).
Defined.

End RoundTripFacts.

(* ===================================================================== *)
(** ** Outgoing messages *)
(* ===================================================================== *)

Section SendFacts.
Import TelegramService TelegramController BotOps BotHandlers.

Implicit Types (s : Service) (resp : HttpResult).

Lemma doSendMessage_result_None resp :
  doSendMessage_result resp = None <-> resp = HttpStatus 200.
Proof.
  unfold doSendMessage_result. destruct resp as [e | c]; [done |].
  case_decide as Hc; split; try done.
  - intros [= ->]. done.
  - intros _. f_equal. destruct (decide (c = 200)); [done | by destruct Hc].
Qed.

Lemma SendMessage_cases message resp s :
  (configured s
   /\ SendMessage message resp s
      = (doSendMessage_result resp, [sendMessage (chatID s) message None]))
  \/ (~ configured s /\ SendMessage message resp s = (Some ErrNotConfigured, [])).
Proof.
  unfold SendMessage.
  destruct (negb (enabled s) || String.eqb (botToken s) "" || String.eqb (chatID s) "")
    eqn:E.
  - right. split; [| done]. intros Hc%configured_test. congruence.
  - left. by apply configured_test in E.
Qed.

(** X14. [SendTestMessage] answers 200 exactly when the bot is enabled
    with a token and a chat identifier and the Bot API accepted the
    request with status 200; otherwise it answers 400.  When the bot is
    not so configured, no request is made at all; when it is, exactly one
    message goes to the configured chat, without keyboard: the text of
    the request, or the fixed test text when the request's text is
    empty. *)
Theorem SendTestMessage_outcome m resp s :
  let r := SendTestMessage m resp s in
  (code r.1 = 200 <-> configured s /\ resp = HttpStatus 200)
  /\ (code r.1 = 200 \/ code r.1 = 400)
  /\ (configured s ->
      r.2 = [sendMessage (chatID s)
               (if String.eqb m "" then default_test_message else m) None])
  /\ (~ configured s ->
      r = (mkResponse 400 ("发送失败: " +:+ ErrNotConfigured)%string, [])).
Proof.
  intros r. subst r. unfold SendTestMessage.
  set (text := if String.eqb m "" then default_test_message else m).
  destruct (SendMessage_cases text resp s) as [[Hc ->] | [Hn ->]].
  - destruct (doSendMessage_result resp) as [e|] eqn:He; cbn [fst snd code].
    + split; [| split; [by right | split; [done | done]]].
      split; [done |]. intros [_ Hr%doSendMessage_result_None]. congruence.
    + apply doSendMessage_result_None in He.
      split; [| split; [by left | split; [done | done]]]. done.
  - cbn [fst snd code].
    split; [| split; [by right | split; [done | done]]].
    split; [done | by intros [? _]].
Qed.

Lemma SendTestMessage_outcome_witness :
  SendTestMessage "" (HttpStatus 200) BotSpec.service42
  = (mkResponse 200 "消息发送成功", [sendMessage "42" default_test_message None])
  /\ (SendTestMessage "hello" (HttpStatus 200) (NewTelegramService ∅)).2 = []
  /\ code (SendTestMessage "hello" (HttpStatus 502) BotSpec.service42).1 = 400.
Proof.
  assert (configured BotSpec.service42) as Hc by (repeat split; discriminate).
  assert (~ configured (NewTelegramService ∅)) as Hn by (intros [He _]; discriminate He).
  split; [reflexivity |]. split.
  - destruct (SendTestMessage_outcome "hello" (HttpStatus 200) (NewTelegramService ∅))
      as (_ & _ & _ & H4).
    by rewrite (H4 Hn).
  - destruct (SendTestMessage_outcome "hello" (HttpStatus 502) BotSpec.service42)
      as (H1 & [H2 | H2] & _); [| exact H2].
    apply H1 in H2 as [_ H2]. discriminate H2.
Defined.

(** X15. [TestConnection] looks at the token only: without a token it
    fails without contacting the Bot API; with a token it makes the
    request, whether the bot is enabled or not, and succeeds exactly when
    the answer has status 200.  The handler answers 200 in that case and
    400 in every other. *)
Theorem TestConnection_outcome resp s :
  ((BotOps.TestConnection resp s).2 = false <-> botToken s = EmptyString)
  /\ ((BotOps.TestConnection resp s).1 = None
      <-> botToken s <> EmptyString /\ resp = HttpStatus 200)
  /\ (code (TestConnection resp s) = 200
      <-> botToken s <> EmptyString /\ resp = HttpStatus 200)
  /\ (code (TestConnection resp s) = 200 \/ code (TestConnection resp s) = 400).
Proof.
  unfold TestConnection, BotOps.TestConnection.
  destruct (String.eqb_spec (botToken s) "") as [Ht | Ht].
  - cbn [fst snd code]. repeat split; try done; try (by intros [? _]). by right.
  - destruct resp as [e | c].
    + cbn [fst snd code]. repeat split; try done; try (by intros [_ ?]). by right.
    + destruct (decide (c <> 200)) as [Hc | Hc]; cbn [fst snd code].
      * repeat split; try done; try (intros [_ [= ->]]; done). by right.
      * assert (c = 200) as -> by (destruct (decide (c = 200)); [done | by destruct Hc]).
        repeat split; try done. by left.
Qed.

Lemma TestConnection_outcome_witness :
  (BotOps.TestConnection (HttpStatus 200) (NewTelegramService ∅)).2 = false
  /\ code (TestConnection (HttpStatus 200)
             (mkService "123456:ABCDEFGHIJKL" "" false false ∅)) = 200.
Proof.
  split.
  - by apply (proj1 (TestConnection_outcome (HttpStatus 200) (NewTelegramService ∅))).
  - apply (proj1 (proj2 (proj2 (TestConnection_outcome (HttpStatus 200)
             (mkService "123456:ABCDEFGHIJKL" "" false false ∅))))).
    split; [discriminate | reflexivity].
Defined.

End SendFacts.

(* ===================================================================== *)
(** ** The menu and its buttons; the offset across turns *)
(* ===================================================================== *)

Section MenuFacts.
Import GoInt TelegramService BotSpec.

Variable report : Snapshot -> string.

Implicit Types (s : Service) (cb : CallbackQuery)
  (resps pre post : list (option (list TelegramUpdate))).

Lemma keyboard_wired : Forall (Forall (wired report)) getMainKeyboard.
Proof.
  unfold getMainKeyboard.
  repeat (apply Forall_cons; split); try solve [constructor]; unfold wired;
    try (by left);
    right; intros cb Hd; unfold handleCallback; rewrite Hd; simpl; eauto.
Qed.

Lemma has_button_elem d :
  has_button d ->
  exists row button, row ∈ getMainKeyboard /\ button ∈ row /\ CallbackData button = d.
Proof.
  intros (row & Hrow & (button & Hb & Hd)%Exists_exists)%Exists_exists. eauto.
Qed.

Lemma keyboard_data :
  has_button "check_alive" /\ has_button "task_details"
  /\ has_button "instance_stats" /\ has_button "config_list"
  /\ has_button "version_info" /\ has_button "traffic_stats"
  /\ has_button "cancel".
Proof.
  repeat split; apply (bool_decide_unpack _); by vm_compute.
Qed.

Lemma keyboard_reaches (f : Snapshot) :
  exists row button, row ∈ getMainKeyboard /\ button ∈ row
    /\ forall cb, Data cb = CallbackData button ->
         handleCallback report cb
         = show report (fmt_d (cb_Chat_ID cb)) (cb_MessageID cb) f.
Proof.
  destruct keyboard_data as (H1 & H2 & H3 & H4 & H5 & H6 & _).
  destruct f;
    [ destruct (has_button_elem _ H1) as (row & button & Hr & Hb & Hd)
    | destruct (has_button_elem _ H2) as (row & button & Hr & Hb & Hd)
    | destruct (has_button_elem _ H3) as (row & button & Hr & Hb & Hd)
    | destruct (has_button_elem _ H4) as (row & button & Hr & Hb & Hd)
    | destruct (has_button_elem _ H5) as (row & button & Hr & Hb & Hd)
    | destruct (has_button_elem _ H6) as (row & button & Hr & Hb & Hd) ];
    exists row, button; (split; [done |]); (split; [done |]);
    intros cb Hcb; unfold handleCallback; by rewrite Hcb, Hd.
Qed.

Lemma unknown_data_ignored cb :
  (forall row button, row ∈ getMainKeyboard -> button ∈ row ->
                      CallbackData button <> Data cb) ->
  handleCallback report cb = [].
Proof.
  intros Hno.
  assert (forall d, has_button d -> Data cb <> d) as H.
  { intros d (row & button & Hr & Hb & <-)%has_button_elem E.
    by apply (Hno row button). }
  destruct keyboard_data as (H1 & H2 & H3 & H4 & H5 & H6 & H7).
  unfold handleCallback.
  rewrite !decide_False; [done | by apply H ..].
Qed.

(** X16. The menu and the dispatcher agree.  Every button of the main
    keyboard that carries callback data is handled: pressing it deletes
    the menu message (the close button) or calls exactly one report and
    shows its text in the message the button belongs to, with the same
    keyboard.  Each of the six reports is reached by a button of the
    keyboard.  Callback data that no button carries is ignored: no call is
    made.  And [/start] from the configured chat sends that keyboard to
    the chat. *)
Theorem menu_is_wired s :
  (forall row button cb,
     row ∈ getMainKeyboard -> button ∈ row -> CallbackData button <> EmptyString ->
     Data cb = CallbackData button ->
     handleCallback report cb
     = [deleteMessage (fmt_d (cb_Chat_ID cb)) (cb_MessageID cb)]
     \/ exists f, handleCallback report cb
          = [render f;
             editMessageText (fmt_d (cb_Chat_ID cb)) (cb_MessageID cb) (report f)
                             (Some getMainKeyboard)])
  /\ (forall f, exists row button,
        row ∈ getMainKeyboard /\ button ∈ row
        /\ forall cb, Data cb = CallbackData button ->
             handleCallback report cb
             = [render f;
                editMessageText (fmt_d (cb_Chat_ID cb)) (cb_MessageID cb) (report f)
                                (Some getMainKeyboard)])
  /\ (forall cb,
        (forall row button, row ∈ getMainKeyboard -> button ∈ row ->
                            CallbackData button <> Data cb) ->
        handleCallback report cb = [])
  /\ (forall i m,
        fmt_d (Chat_ID m) = chatID s -> Text m = "/start"%string ->
        handleUpdate report s (mkUpdate i (Some m) None)
        = [sendMessage (chatID s) "请选择需要执行的操作：" (Some getMainKeyboard)]).
Proof.
  split; [| split; [| split]].
  - intros row button cb Hrow Hb Hne Hd.
    pose proof (proj1 (Forall_forall _ _) keyboard_wired row Hrow) as Hw.
    destruct (proj1 (Forall_forall _ _) Hw button Hb) as [He | Hw']; [done |].
    by apply Hw'.
  - apply keyboard_reaches.
  - apply unknown_data_ignored.
  - intros i m Hc Ht. unfold handleUpdate, handle_message. cbn [update_Message].
    rewrite decide_False by (intros H; by apply H).
    rewrite decide_True by done. cbn [update_CallbackQuery handle_callback_query].
    unfold handleStartCommand. rewrite Hc. by rewrite app_nil_r.
Qed.

(** *** The offset across the turns of the loop *)

Lemma loop_offset_app offset pre post :
  loop_offset offset (pre ++ post) = loop_offset (loop_offset offset pre) post.
Proof.
  revert offset. induction pre as [|[updates|] pre IH]; intros offset; simpl; auto.
Qed.

Lemma transport_ok_app offset pre post :
  transport_ok offset (pre ++ post) ->
  transport_ok offset pre /\ transport_ok (loop_offset offset pre) post.
Proof.
  revert offset. induction pre as [|[updates|] pre IH]; intros offset; simpl.
  - done.
  - intros (Ho & Hge & Hok). destruct (IH _ Hok). done.
  - apply IH.
Qed.

Lemma poll_loop_app s offset pre post :
  (poll_loop report s offset (pre ++ post)).2
  = (poll_loop report s offset pre).2
    ++ (poll_loop report s (poll_loop report s offset pre).1 post).2.
Proof.
  revert offset. induction pre as [|resp pre IH]; intros offset; [done |].
  cbn [app poll_loop].
  destruct (poll_cycle report s offset resp) as [o1 c1].
  specialize (IH o1).
  destruct (poll_loop report s o1 (pre ++ post)) as [o2 c2].
  destruct (poll_loop report s o1 pre) as [o3 c3]. simpl in *.
  rewrite IH. by rewrite app_assoc.
Qed.

(** X17. While the transport keeps its contract, the offset of the loop
    only ever advances: after any number of turns it is at least what it
    was after fewer turns, and every update handled in the later turns has
    an identifier at or above the offset reached before them.  The calls
    of a run are those of its first turns followed by those of the later
    turns started from the offset the first ones reached. *)
Theorem offset_only_advances s pre post :
  transport_ok 0 (pre ++ post) ->
  0 <= (pollUpdates report s pre).1
  /\ (pollUpdates report s pre).1 <= (pollUpdates report s (pre ++ post)).1
  /\ Forall (fun i => (pollUpdates report s pre).1 <= i) (processed post)
  /\ (pollUpdates report s (pre ++ post)).2
     = (pollUpdates report s pre).2
       ++ (poll_loop report s (pollUpdates report s pre).1 post).2.
Proof.
  intros Hok. destruct (transport_ok_app 0 pre post Hok) as [Hpre Hpost].
  unfold pollUpdates. rewrite !poll_loop_offset, loop_offset_app.
  destruct (loop_offset_above 0 pre Hpre) as [H0 _].
  destruct (loop_offset_above _ post Hpost) as [H1 _].
  destruct (processed_sorted _ post Hpost) as [_ H2].
  split; [done |]. split; [done |]. split; [done |].
  rewrite <- (poll_loop_offset report s 0 pre). apply poll_loop_app.
Qed.

End MenuFacts.

Section MenuExamples.
Import GoInt TelegramService BotSpec.

Lemma menu_is_wired_witness :
  handleCallback (fun _ => "report"%string) (mkCallback "cb1" 42 10 42 "task_details")
  = [render getTaskDetails;
     editMessageText "42" 10 "report" (Some getMainKeyboard)]
  /\ handleCallback (fun _ => "report"%string) (mkCallback "cb1" 42 10 42 "reboot") = []
  /\ handleUpdate (fun _ => "report"%string) service42
       (mkUpdate 1 (Some (mkMessage 10 42 42 "/start")) None)
     = [sendMessage "42" "请选择需要执行的操作：" (Some getMainKeyboard)].
Proof.
  destruct (menu_is_wired (fun _ => "report"%string) service42) as (H1 & _ & H3 & H4).
  split; [| split].
  - destruct (H1 (getMainKeyboard !!! 0%nat) (mkButton "📋 任务详情" "task_details" "")
                (mkCallback "cb1" 42 10 42 "task_details"))
      as [Hdel | [f Hf]];
      [apply (bool_decide_unpack _); by vm_compute
      | apply (bool_decide_unpack _); by vm_compute
      | discriminate | reflexivity | discriminate Hdel | ].
    injection Hf as <-. reflexivity.
  - apply H3. intros row button Hrow Hb.
    repeat (apply elem_of_cons in Hrow as [-> | Hrow];
            [repeat (apply elem_of_cons in Hb as [-> | Hb]; [discriminate |]);
             by apply elem_of_nil in Hb |]).
    by apply elem_of_nil in Hrow.
  - exact (H4 1 (mkMessage 10 42 42 "/start") eq_refl eq_refl).
Defined.

Lemma offset_only_advances_witness :
  transport_ok 0 ([Some [update 5; update 6; update 7]; None] ++ [Some [update 9]])
  /\ (pollUpdates (fun _ => EmptyString) service42
        [Some [update 5; update 6; update 7]; None]).1
     <= (pollUpdates (fun _ => EmptyString) service42
           ([Some [update 5; update 6; update 7]; None] ++ [Some [update 9]])).1.
Proof.
  assert (forall i, 0 <= i < 100 -> min_int <= i < max_int) as Hint.
  { unfold min_int, max_int. lia. }
  assert (transport_ok 0 ([Some [update 5; update 6; update 7]; None]
                          ++ [Some [update 9]])) as Hok.
  { split; [split; repeat constructor; try lia; by apply Hint |].
    split; [repeat constructor; simpl; lia |].
    split; [split; repeat constructor; by apply Hint |].
    split; [repeat constructor; vm_compute; discriminate | exact I]. }
  split; [exact Hok |].
  exact (proj1 (proj2 (offset_only_advances (fun _ => EmptyString) service42 _ _ Hok))).
Defined.

End MenuExamples.

(* ===================================================================== *)
(** ** The tallies of the reports *)
(* ===================================================================== *)

Section ReportFacts.
Import GoInt TelegramService Reports.

Lemma wrap64_small z : 0 <= z <= max_int -> wrap64 z = z.
Proof.
  intros H. unfold wrap64. unfold max_int in H. rewrite Z.mod_small; lia.
Qed.

Lemma alive_tally_foldl probes v i names :
  0 <= v -> 0 <= i -> v + i + Z.of_nat (length probes) <= max_int ->
  foldl (fun '(validCount, invalidCount, invalidNames) '(user, err) =>
           match err with
           | Some _ =>
               (validCount, wrap64 (invalidCount + 1),
                invalidNames ++ [acc_Username user])
           | None => (wrap64 (validCount + 1), invalidCount, invalidNames)
           end)
        (v, i, names) probes
  = (v + Z.of_nat (length (filter (fun p => ~ failed p) probes)),
     i + Z.of_nat (length (filter failed probes)),
     names ++ ((fun p => acc_Username p.1) <$> filter failed probes)).
Proof.
  revert v i names. induction probes as [|[user [e|]] probes IH]; intros v i names Hv Hi Hb.
  - simpl. rewrite app_nil_r.
    repeat match goal with |- (_, _) = (_, _) => f_equal end; lia.
  - cbn [foldl]. simpl length in Hb.
    rewrite (wrap64_small (i + 1)) by lia. rewrite IH by lia.
    rewrite (filter_cons_True failed) by done.
    rewrite (filter_cons_False (fun p => ~ failed p)) by (intros H; by apply H).
    rewrite fmap_cons, <- app_assoc. simpl.
    repeat match goal with |- (_, _) = (_, _) => f_equal end; lia.
  - cbn [foldl]. simpl length in Hb.
    rewrite (wrap64_small (v + 1)) by lia. rewrite IH by lia.
    rewrite (filter_cons_False failed) by (intros H; by apply H).
    rewrite (filter_cons_True (fun p => ~ failed p)) by (intros H; by apply H).
    simpl. repeat match goal with |- (_, _) = (_, _) => f_equal end; lia.
Qed.

Lemma filter_split_length {A} (P : A -> Prop) `{forall x, Decision (P x)} (l : list A) :
  (length (filter P l) + length (filter (fun x => ~ P x) l) = length l)%nat.
Proof.
  induction l as [|x l IH]; [done |].
  destruct (decide (P x)).
  - rewrite filter_cons_True, (filter_cons_False (fun x => ~ P x)) by tauto.
    simpl. lia.
  - rewrite filter_cons_False, (filter_cons_True (fun x => ~ P x)) by tauto.
    simpl. lia.
Qed.

(** X18. The liveness check probes every account, whatever the earlier
    probes gave: the number of valid and the number of invalid accounts it
    reports add up to the number of accounts, the invalid ones are those
    whose probe failed, and their names are listed in the order of the
    accounts.  Without accounts, or when the accounts cannot be read, it
    returns a fixed text. *)
Theorem checkAlive_counts_every_account probes :
  Z.of_nat (length probes) <= max_int ->
  let '(validCount, invalidCount, invalidNames) := alive_tally probes in
  validCount + invalidCount = Z.of_nat (length probes)
  /\ invalidCount = Z.of_nat (length (filter failed probes))
  /\ invalidNames = (fun p => acc_Username p.1) <$> filter failed probes
  /\ (invalidNames = [] <-> Forall (fun p => p.2 = None) probes)
  /\ checkAlive (Some []) = ("【API测活结果】" +:+ nl +:+ nl +:+ "暂无配置")%string
  /\ checkAlive None = "❌ 获取配置失败"%string.
Proof.
  intros Hb. unfold alive_tally. rewrite alive_tally_foldl by lia.
  pose proof (filter_split_length failed probes) as Hsplit.
  split; [lia |]. split; [lia |]. split; [done |]. split; [| done].
  simpl. split.
  - intros Hnil. apply fmap_nil_inv in Hnil. apply Forall_forall. intros p Hp.
    destruct (p.2) eqn:E; [| done].
    assert (p ∈ filter failed probes) as Hin.
    { apply list_elem_of_filter. split; [| done]. unfold failed. by rewrite E. }
    rewrite Hnil in Hin. by apply elem_of_nil in Hin.
  - intros Hall. destruct (filter failed probes) as [|p l] eqn:E; [done |].
    assert (p ∈ filter failed probes) as Hin by (rewrite E; by left).
    apply list_elem_of_filter in Hin as [Hf Hin].
    by destruct (Hf (proj1 (Forall_forall _ _) Hall p Hin)).
Qed.

Lemma checkAlive_counts_every_account_witness :
  alive_tally [(mkAccount "a" "r1", None); (mkAccount "b" "r2", Some "timeout"%string);
               (mkAccount "c" "r1", None)]
  = (2, 1, ["b"%string]).
Proof.
  pose proof (checkAlive_counts_every_account
                [(mkAccount "a" "r1", None); (mkAccount "b" "r2", Some "timeout"%string);
                 (mkAccount "c" "r1", None)]
                ltac:(unfold max_int; simpl; lia)) as H.
  destruct (alive_tally _) as [[v i] names].
  destruct H as (H1 & H2 & H3 & _).
  rewrite H3. simpl in H1, H2.
  repeat match goal with |- (_, _) = (_, _) => f_equal end; lia.
Defined.


Lemma count_running_foldl instances acc :
  0 <= acc -> acc + Z.of_nat (length instances) <= max_int ->
  foldl (fun running inst =>
           if decide (LifecycleState inst = "RUNNING"%string) then wrap64 (running + 1)
           else running)
        acc instances
  = acc + Z.of_nat (length (filter is_running instances)).
Proof.
  revert acc. induction instances as [|inst instances IH]; intros acc H0 Hb.
  - simpl. lia.
  - cbn [foldl]. simpl length in Hb. destruct (decide (is_running inst)) as [Hr | Hr].
    + rewrite filter_cons_True by done. unfold is_running in Hr.
      rewrite decide_True by done. rewrite wrap64_small by lia.
      rewrite IH by lia. simpl length. lia.
    + rewrite filter_cons_False by done. unfold is_running in Hr.
      rewrite decide_False by done. rewrite IH by lia. lia.
Qed.

Lemma count_running_spec instances :
  Z.of_nat (length instances) <= max_int ->
  count_running instances = Z.of_nat (length (filter is_running instances)).
Proof.
  intros Hb. unfold count_running. rewrite count_running_foldl by lia. lia.
Qed.

Lemma filter_length_le {A} (P : A -> Prop) `{forall x, Decision (P x)} (l : list A) :
  (length (filter P l) <= length l)%nat.
Proof. pose proof (filter_split_length P l). lia. Qed.

Lemma instance_tally_foldl probes t r stats :
  0 <= t -> 0 <= r ->
  t + Z.of_nat (length (all_instances probes)) <= max_int ->
  r + Z.of_nat (length (all_instances probes)) <= max_int ->
  let res :=
    foldl (fun '(totalInstances, runningInstances, stats) '(user, res) =>
             match res with
             | inl _ =>
                 (totalInstances, runningInstances,
                  stats ++ [("❌ " +:+ acc_Username user +:+ ": 获取失败")%string])
             | inr instances =>
                 let running := count_running instances in
                 (wrap64 (totalInstances + Z.of_nat (length instances)),
                  wrap64 (runningInstances + running),
                  stats ++ [("🔑 " +:+ acc_Username user +:+ " [" +:+ acc_OciRegion user
                             +:+ "]: " +:+ fmt_d (Z.of_nat (length instances))
                             +:+ "台 (运行中: " +:+ fmt_d running +:+ ")")%string])
             end)
          (t, r, stats) probes in
  res.1.1 = t + Z.of_nat (length (all_instances probes))
  /\ res.1.2 = r + Z.of_nat (length (filter is_running (all_instances probes)))
  /\ length res.2 = (length stats + length probes)%nat.
Proof.
  revert t r stats.
  induction probes as [|[user [e|instances]] probes IH]; intros t r stats Ht Hr Hbt Hbr.
  - simpl. repeat split; lia.
  - cbn [foldl]. unfold all_instances in *. rewrite fmap_cons in *.
    cbn [concat snd] in *. simpl app in *.
    destruct (IH t r (stats ++ [("❌ " +:+ acc_Username user +:+ ": 获取失败")%string])
                Ht Hr Hbt Hbr) as (H1 & H2 & H3).
    split; [done |]. split; [done |]. rewrite H3, length_app. simpl. lia.
  - cbn [foldl]. unfold all_instances in *. rewrite fmap_cons in *.
    cbn [concat snd] in *. rewrite length_app in Hbt, Hbr.
    pose proof (filter_length_le is_running instances) as Hle.
    rewrite count_running_spec by lia.
    rewrite (wrap64_small (t + _)) by lia. rewrite (wrap64_small (r + _)) by lia.
    match goal with
    | |- context [foldl _ (?t', ?r', ?st') probes] =>
        destruct (IH t' r' st') as (H1 & H2 & H3); [lia | lia | lia | lia |]
    end.
    rewrite H1, H2, H3, filter_app, !length_app. simpl. repeat split; lia.
Qed.

(** X19. The instance report has one line for every account, also for
    those whose listing failed, which count for nothing in the totals;
    the total it prints is the number of instances of the accounts that
    could be listed, the running count is the number of those in state
    [RUNNING], and so never exceeds the total. *)
Theorem getInstanceStats_tally probes :
  Z.of_nat (length (all_instances probes)) <= max_int ->
  let '(totalInstances, runningInstances, stats) := instance_tally probes in
  totalInstances = Z.of_nat (length (all_instances probes))
  /\ runningInstances = Z.of_nat (length (filter is_running (all_instances probes)))
  /\ 0 <= runningInstances <= totalInstances
  /\ length stats = length probes.
Proof.
  intros Hb. unfold instance_tally.
  pose proof (instance_tally_foldl probes 0 0 [] ltac:(lia) ltac:(lia)
                ltac:(lia) ltac:(lia)) as H.
  cbv zeta in H.
  match type of H with
  | context [foldl ?f ?a probes] => destruct (foldl f a probes) as [[t r] stats]
  end.
  simpl in H. destruct H as (-> & -> & ->).
  pose proof (filter_length_le is_running (all_instances probes)).
  repeat split; lia.
Qed.

Lemma getInstanceStats_tally_witness :
  let probes :=
    [(mkAccount "a" "r1", inr [mkInstance "RUNNING"; mkInstance "STOPPED"]);
     (mkAccount "b" "r2", inl "timeout"%string);
     (mkAccount "c" "r1", inr [mkInstance "RUNNING"])] in
  (instance_tally probes).1 = (3, 2) /\ length (instance_tally probes).2 = 3%nat.
Proof.
  intros probes.
  pose proof (getInstanceStats_tally probes ltac:(unfold max_int; simpl; lia)) as H.
  destruct (instance_tally probes) as [[t r] stats].
  destruct H as (H1 & H2 & _ & H4). simpl in H1, H2. split; [| exact H4].
  simpl. repeat match goal with |- (_, _) = (_, _) => f_equal end; lia.
Defined.

End ReportFacts.
